(** * PyPilot-ai (controlflow): turn selection and run-context aggregation

    A shallow embedding of
      - [src/controlflow/agents/teams.py]               (class [Team])
      - [src/controlflow/orchestration/agent_context.py] (class [AgentContext],
        [provide_agent_context])
    together with the properties the specification states about them.

    Conventions.  A Python [int] is a [Z]; a Python [str] is a [string] whose
    characters are read as code points below 256; [Optional[T]] is
    [option T]; a raised exception is an [Err] result.  Objects whose
    fields are re-bound are threaded through the functions (state passing);
    the participant list of a context is a list object in a store, because
    the code takes a second reference to it. *)

From Stdlib Require Import ZArith NArith String Ascii List Lia.
From stdpp Require Import base option list gmap strings.
Import ListNotations.

Local Open Scope string_scope.
Local Open Scope Z_scope.

(** ** Exceptions and results *)

Inductive Error : Type :=
| ValueError (msg : string)
| ValidationError (msg : string)
| ZeroDivisionError
| IndexError
| AttributeError (attr : string).

Inductive Result (A : Type) : Type :=
| Ok (a : A)
| Err (e : Error).
Arguments Ok {A} a.
Arguments Err {A} e.

#[global] Instance Result_ret : MRet Result := fun A a => Ok a.
#[global] Instance Result_bind : MBind Result := fun A B k r =>
  match r with
  | Ok a => k a
  | Err e => Err e
  end.

(** ** The data the two modules work on *)

(** Modelled from the spec: the agent declaration ([agents/agent.py]) is not
    among the sources.  An agent has "a stable identity (a content-derived
    identifier), a display name, optional instructions and a prompt
    template"; [Team] inherits [description] from it.  Two agents are the
    same participant when they are equal as records. *)
Module Agent.

Record t : Type := mk {
  id : string;
  name : string;
  description : option string;
  prompt : option string;
  instructions : option string
}.

#[global] Instance eq_dec : EqDecision t.
Proof. solve_decision. Defined.

End Agent.

(** Tasks, tools and handlers are opaque to both modules: they are only
    stored and handed on. *)
Module Task.

Record t : Type := mk { id : string; objective : string }.

End Task.

Module Tool.

Record t : Type := mk { name : string }.

End Tool.

(** Modelled from the spec: the payload of a "tool-result" event "carries an
    [end_turn: bool] flag signaling whether the tool call concludes the
    acting agent's turn". *)
Module ToolResult.

Record t : Type := mk { end_turn : bool }.

End ToolResult.

(** Modelled from the spec: the event declaration ([events/base.py]) is not
    among the sources.  An event is "a record with a discriminated kind ...,
    an owning agent reference, an optional task association, a persistence
    flag, and kind-specific payload".  [tool_result] is the payload of the
    kind "tool-result"; reading it on an event that has none raises
    [AttributeError].  [thread_id], [task_ids] and [agent_ids] are what
    [AgentContext.handle_event] has filled in. *)
Module Event.

Record t : Type := mk {
  event : string;
  agent : Agent.t;
  tool_result : option ToolResult.t;
  persist : bool;
  thread_id : option string;
  task_ids : list string;
  agent_ids : list string
}.

Definition set_thread_id (e : t) (v : option string) : t :=
  mk (event e) (agent e) (tool_result e) (persist e) v (task_ids e) (agent_ids e).

End Event.

(** Modelled from the spec: the flow ([flows/flow.py]) is not among the
    sources.  It carries the run's thread identifier and owns the event log,
    "append-only, time-ordered"; [events] lists the log oldest first. *)
Module Flow.

Record t : Type := mk {
  thread_id : string;
  events : list Event.t
}.

(** Modelled from the spec: [add_events(events)], the log's write API,
    "append the event to the EventLog". *)
Definition add_events (self : t) (new_events : list Event.t) : t :=
  mk (thread_id self) (events self ++ new_events).

(** Modelled from the spec: [get_events(agents?, tasks?, kinds?, limit?)],
    the log's read API: the events "whose owning agent is a member" of
    [agents], "scoped to" [tasks], "restricted to kinds" [types], "newest
    first when limit given".  The functions of [teams.py] below take the
    query as a parameter; this one instantiates it in the examples. *)
Definition get_events (self : t) (agents : list Agent.t) (tasks : list Task.t)
    (types : list string) (limit : option Z) : list Event.t :=
  let selected :=
    filter (fun e => Event.agent e ∈ agents
                     ∧ Exists (fun task => Task.id task ∈ Event.task_ids e) tasks
                     ∧ Event.event e ∈ types)
           (events self) in
  match limit with
  | Some n => take (Z.to_nat n) (reverse selected)
  | None => selected
  end.

End Flow.

Module Handler.

Record t : Type := mk { name : string }.

End Handler.

(** ** Derived identifiers: [json.dumps] and [hashlib.md5], as [hash_objects]
    uses them *)

(** The values [hash_objects] is given: texts, [None], and lists or tuples
    of them. *)
#[warnings="-register-all"]
Inductive PyObj : Type :=
| PyNone
| PyStr (s : string)
| PyList (xs : list PyObj)
| PyTuple (xs : list PyObj).

Module json.

Definition quote : ascii := ascii_of_nat 34.
Definition backslash : ascii := ascii_of_nat 92.

Definition hex_digit (n : N) : ascii :=
  nth (N.to_nat n) (list_ascii_of_string "0123456789abcdef") "0"%char.

(** One character of a text, as [ensure_ascii] writes it: the quote and the
    backslash escaped, the printable ASCII characters as they are, the
    others by their short escape or as [\u00xx]. *)
Definition escape (c : ascii) : string :=
  let n := N_of_ascii c in
  let short (x : ascii) := String backslash (String x EmptyString) in
  if (n =? 34)%N then short quote
  else if (n =? 92)%N then short backslash
  else if (n =? 10)%N then short "n"%char
  else if (n =? 13)%N then short "r"%char
  else if (n =? 9)%N then short "t"%char
  else if (n =? 8)%N then short "b"%char
  else if (n =? 12)%N then short "f"%char
  else if ((n <? 32) || (126 <? n))%N then
    String backslash
      (String "u"%char (String "0"%char (String "0"%char
         (String (hex_digit (n / 16)) (String (hex_digit (n mod 16)) EmptyString)))))
  else String c EmptyString.

Fixpoint escape_all (s : string) : string :=
  match s with
  | EmptyString => EmptyString
  | String c s => escape c ++ escape_all s
  end.

Definition dumps_str (s : string) : string :=
  String quote (escape_all s ++ String quote EmptyString).

(** [json.dumps(obj, sort_keys=True)]: there is no dictionary to sort; items
    are separated by a comma and a space; a tuple is written as a list. *)
Fixpoint dumps (obj : PyObj) : string :=
  let items :=
    fix items (xs : list PyObj) : string :=
      match xs with
      | [] => ""
      | [x] => dumps x
      | x :: xs => dumps x ++ ", " ++ items xs
      end in
  match obj with
  | PyNone => "null"
  | PyStr s => dumps_str s
  | PyList xs | PyTuple xs => "[" ++ items xs ++ "]"
  end.

End json.

Module hashlib.

Local Open Scope N_scope.

(** 32-bit words are numbers below [2^32]. *)
Definition mask32 : N := 0xffffffff.
Definition add32 (x y : N) : N := N.land (x + y) mask32.
Definition not32 (x : N) : N := N.lxor x mask32.
Definition rotl32 (x c : N) : N :=
  N.land (N.lor (N.shiftl x c) (N.shiftr x (32 - c))) mask32.

Definition shifts : list N :=
  [ 7; 12; 17; 22; 7; 12; 17; 22; 7; 12; 17; 22; 7; 12; 17; 22;
    5;  9; 14; 20; 5;  9; 14; 20; 5;  9; 14; 20; 5;  9; 14; 20;
    4; 11; 16; 23; 4; 11; 16; 23; 4; 11; 16; 23; 4; 11; 16; 23;
    6; 10; 15; 21; 6; 10; 15; 21; 6; 10; 15; 21; 6; 10; 15; 21 ].

(** [K[i] = floor(2^32 * abs(sin(i + 1)))]. *)
Definition K : list N :=
  [ 0xd76aa478; 0xe8c7b756; 0x242070db; 0xc1bdceee;
    0xf57c0faf; 0x4787c62a; 0xa8304613; 0xfd469501;
    0x698098d8; 0x8b44f7af; 0xffff5bb1; 0x895cd7be;
    0x6b901122; 0xfd987193; 0xa679438e; 0x49b40821;
    0xf61e2562; 0xc040b340; 0x265e5a51; 0xe9b6c7aa;
    0xd62f105d; 0x02441453; 0xd8a1e681; 0xe7d3fbc8;
    0x21e1cde6; 0xc33707d6; 0xf4d50d87; 0x455a14ed;
    0xa9e3e905; 0xfcefa3f8; 0x676f02d9; 0x8d2a4c8a;
    0xfffa3942; 0x8771f681; 0x6d9d6122; 0xfde5380c;
    0xa4beea44; 0x4bdecfa9; 0xf6bb4b60; 0xbebfbc70;
    0x289b7ec6; 0xeaa127fa; 0xd4ef3085; 0x04881d05;
    0xd9d4d039; 0xe6db99e5; 0x1fa27cf8; 0xc4ac5665;
    0xf4292244; 0x432aff97; 0xab9423a7; 0xfc93a039;
    0x655b59c3; 0x8f0ccc92; 0xffeff47d; 0x85845dd1;
    0x6fa87e4f; 0xfe2ce6e0; 0xa3014314; 0x4e0811a1;
    0xf7537e82; 0xbd3af235; 0x2ad7d2bb; 0xeb86d391 ].

Definition word_at (i : N) (ws : list N) : N := nth (N.to_nat i) ws 0.

(** One of the 64 operations on the state [(A, B, C, D)], for the block of
    sixteen words [M]. *)
Definition operation (M : list N) (st : N * N * N * N) (i : N) : N * N * N * N :=
  let '(A, B, C, D) := st in
  let '(F, g) :=
    if i <? 16 then (N.lor (N.land B C) (N.land (not32 B) D), i)
    else if i <? 32 then (N.lor (N.land D B) (N.land (not32 D) C), (5 * i + 1) mod 16)
    else if i <? 48 then (N.lxor (N.lxor B C) D, (3 * i + 5) mod 16)
    else (N.lxor C (N.lor B (not32 D)), (7 * i) mod 16) in
  let F := add32 (add32 (add32 F A) (word_at i K)) (word_at g M) in
  (D, add32 B (rotl32 F (word_at i shifts)), B, C).

Definition compress (st : N * N * N * N) (M : list N) : N * N * N * N :=
  let '(a0, b0, c0, d0) := st in
  let '(A, B, C, D) := fold_left (operation M) (map N.of_nat (seq 0 64)) st in
  (add32 a0 A, add32 b0 B, add32 c0 C, add32 d0 D).

(** The bytes of a number, least significant first. *)
Fixpoint le_bytes (count : nat) (x : N) : list N :=
  match count with
  | O => []
  | S count => (x mod 256) :: le_bytes count (x / 256)
  end.

(** The message, then the byte [0x80], then zeros up to 56 modulo 64, then
    the length in bits on eight bytes. *)
Definition pad (message : list N) : list N :=
  let len := N.of_nat (length message) in
  let zeros := N.to_nat ((119 - len mod 64) mod 64) in
  (message ++ [0x80] ++ repeat 0 zeros ++ le_bytes 8 (8 * len))%list.

Fixpoint le_words (count : nat) (bytes : list N) : list N :=
  match count with
  | O => []
  | S count =>
      match bytes with
      | b0 :: b1 :: b2 :: b3 :: bytes =>
          (b0 + 256 * (b1 + 256 * (b2 + 256 * b3))) :: le_words count bytes
      | _ => []
      end
  end.

Fixpoint blocks (count : nat) (st : N * N * N * N) (words : list N) : N * N * N * N :=
  match count with
  | O => st
  | S count => blocks count (compress st (firstn 16 words)) (skipn 16 words)
  end.

Definition digest (message : list N) : list N :=
  let bytes := pad message in
  let words := le_words (length bytes / 4) bytes in
  let '(a, b, c, d) :=
    blocks (length words / 16) (0x67452301, 0xefcdab89, 0x98badcfe, 0x10325476) words in
  (le_bytes 4 a ++ le_bytes 4 b ++ le_bytes 4 c ++ le_bytes 4 d)%list.

Definition hex (bytes : list N) : string :=
  string_of_list_ascii
    (flat_map (fun b => [json.hex_digit (b / 16); json.hex_digit (b mod 16)]) bytes).

(** [hashlib.md5(text.encode("utf-8")).hexdigest()], for a text of ASCII
    characters, which encode as themselves. *)
Definition md5_hexdigest (text : string) : string :=
  hex (digest (map N_of_ascii (list_ascii_of_string text))).

End hashlib.

(** Modelled from the spec: [hash_objects] ([utilities/general.py]) is not
    among the sources.  It is "a pure hash over an explicit ordered tuple of
    the entity's semantic fields", stable across runs; the scheme, the first
    [len] hexadecimal digits of the MD5 digest of the tuple's JSON text, is
    the one under which [test_stable_id] ([tests/agents/test_agents.py])
    holds, as [hash_objects_test_stable_id] below checks. *)
Definition hash_objects (input_data : PyObj) (len : nat) : string :=
  String.substring 0 len (hashlib.md5_hexdigest (json.dumps input_data)).

(** ** [orchestration/agent_context.py] *)

(** A reference to a list object of the store. *)
Abbreviation loc := positive.

(** A call made to a collaborator: [handler.handle(event)], with the event
    as it is at the call, or [flow.add_events(events)]. *)
Inductive Call : Type :=
| Handle (handler : Handler.t) (event : Event.t)
| AddEvents (events : list Event.t).

Module AgentContext.

(** The fields (lines 31-39).  [agents] is a reference: the list it names
    lives in the store. *)
Record t : Type := mk {
  flow : Flow.t;
  tasks : list Task.t;
  tools : list Tool.t;
  agents : loc;
  handlers : list Handler.t;
  instructions : list string
}.

Definition set_agents (self : t) (v : loc) : t :=
  mk (flow self) (tasks self) (tools self) v (handlers self) (instructions self).

Definition set_flow (self : t) (v : Flow.t) : t :=
  mk v (tasks self) (tools self) (agents self) (handlers self) (instructions self).

Definition set_handlers (self : t) (v : list Handler.t) : t :=
  mk (flow self) (tasks self) (tools self) (agents self) v (instructions self).

Definition set_tools (self : t) (v : list Tool.t) : t :=
  mk (flow self) (tasks self) v (agents self) (handlers self) (instructions self).

Definition set_instructions (self : t) (v : list string) : t :=
  mk (flow self) (tasks self) (tools self) (agents self) (handlers self) v.

(** What a method of the context can touch: the context object, the store
    of list objects, and the collaborators, whose calls are recorded oldest
    first. *)
Record State : Type := {
  self : t;
  lists : gmap loc (list Agent.t);
  calls : list Call
}.

(** A method is a state transformer. *)
Definition M (A : Type) : Type := State → A * State.

#[global] Instance M_ret : MRet M := fun A a s => (a, s).
#[global] Instance M_bind : MBind M := fun A B k m s => let '(a, s) := m s in k a s.

Definition get_self : M t := fun s => (self s, s).

Definition put_self (v : t) : M unit :=
  fun s => (tt, {| self := v; lists := lists s; calls := calls s |}).

(** The list a reference names. *)
Definition read_list (l : loc) : M (list Agent.t) :=
  fun s => (default [] (lists s !! l), s).

(** A new list object: what [xs + ys] evaluates to. *)
Definition new_list (v : list Agent.t) : M loc :=
  fun s => let l := fresh (dom (lists s)) in
           (l, {| self := self s; lists := <[l := v]> (lists s); calls := calls s |}).

Definition call (c : Call) : M unit :=
  fun s => (tt, {| self := self s; lists := lists s; calls := calls s ++ [c] |}).

Fixpoint for_each {A : Type} (xs : list A) (body : A → M unit) : M unit :=
  match xs with
  | [] => mret tt
  | x :: xs => body x;; for_each xs body
  end.

(** The participants registered in the context: the list [self.agents]
    names. *)
Definition participants (s : State) : list Agent.t :=
  default [] (lists s !! agents (self s)).

(** Lines 48-50. *)
Definition add_agent (agent : Agent.t) : M unit :=
  self ← get_self;
  registered ← read_list (agents self);
  if bool_decide (agent ∉ registered) then
    l ← new_list (registered ++ [agent]);
    put_self (set_agents self l)
  else mret tt.

(** Modelled from the spec: a handler is a "side-effect handler" that the
    event is forwarded to; [handler.handle(event)] is recorded as a call. *)
Definition Handler_handle (handler : Handler.t) (event : Event.t) : M unit :=
  call (Handle handler event).

(** [self.flow.add_events(events)]: the flow's log grows, and the call is
    recorded. *)
Definition Flow_add_events (events : list Event.t) : M unit :=
  self ← get_self;
  put_self (set_flow self (Flow.add_events (flow self) events));;
  call (AddEvents events).

(** The state a method leaves. *)
Definition after {A : Type} (m : M A) (s : State) : State := (m s).2.

Section handle_event.

(** [Event.add_tasks] and [Event.add_agents] are not among the sources: any
    implementation; what they return is the event after the call. *)
Variable Event_add_tasks : Event.t → list Task.t → Event.t.
Variable Event_add_agents : Event.t → list Agent.t → Event.t.

(** Lines 52-63.  The result is the event object after the call. *)
Definition handle_event (event : Event.t) (persist : option bool) : M Event.t :=
  let persist :=
    match persist with
    | None => Event.persist event
    | Some persist => persist
    end in
  self ← get_self;
  let event := Event.set_thread_id event (Some (Flow.thread_id (flow self))) in
  let event := Event_add_tasks event (tasks self) in
  registered ← read_list (agents self);
  let event := Event_add_agents event registered in
  for_each (handlers self) (fun handler => Handler_handle handler event);;
  (if persist then Flow_add_events [event] else mret tt);;
  mret event.

(** The event after enrichment in state [s]: stamped with the flow's thread
    identifier, then associated with the tasks, then with the participants. *)
Definition enriched (s : State) (event : Event.t) : Event.t :=
  Event_add_agents
    (Event_add_tasks
       (Event.set_thread_id event (Some (Flow.thread_id (flow (self s)))))
       (tasks (self s)))
    (participants s).

End handle_event.

(** Lines 65-72. *)
Definition add_handlers (handlers : list Handler.t) : M unit :=
  self ← get_self;
  put_self (set_handlers self (AgentContext.handlers self ++ handlers)).

Section add_tools.

(** [as_tools] ([tools/tools.py]) is not among the sources: any
    implementation. *)
Variable as_tools : list Tool.t → list Tool.t.

(** Lines 42-46, the validator of the field [tools]: an empty value is
    returned as it is, another one goes through [as_tools]. *)
Definition _validate_tools (v : list Tool.t) : list Tool.t :=
  match v with
  | [] => v
  | _ :: _ => as_tools v
  end.

(** Lines 68-69.  The class validates what is assigned to a field, so the
    validator of [tools] runs on the list assigned. *)
Definition add_tools (tools : list Tool.t) : M unit :=
  self ← get_self;
  put_self (set_tools self (_validate_tools (AgentContext.tools self ++ tools))).

End add_tools.

Definition add_instructions (instructions : list string) : M unit :=
  self ← get_self;
  put_self (set_instructions self (AgentContext.instructions self ++ instructions)).

(** Python's ["\n\n"]. *)
Definition blank_line : string :=
  String (ascii_of_nat 10) (String (ascii_of_nat 10) EmptyString).

(** The order the specification gives the agent prompts: the registered
    participants, with the target put last when it is not one of them, read
    backwards. *)
Definition prompt_order (registered : list Agent.t) (target : Agent.t) : list Agent.t :=
  reverse (if bool_decide (target ∈ registered) then registered else registered ++ [target]).

Section compile_prompt.

(** The renderings are not among the sources ([Agent.get_prompt],
    [Flow.get_prompt] and the templates of [prompt_templates]): any
    functions of what they are given and of the context, which they see as
    its fields and its registered participants. *)
Variable Agent_get_prompt : Agent.t → t → list Agent.t → string.
Variable Flow_get_prompt : Flow.t → t → list Agent.t → string.
Variable TasksTemplate_render : list Task.t → t → list Agent.t → string.
Variable ToolTemplate_render : list Tool.t → t → list Agent.t → string.
Variable InstructionsTemplate_render : list string → t → list Agent.t → string.

(** Lines 78-96.  [agents = self.agents] is a second reference to the list
    of participants; [agents + [agent]] is a new list.  The renderings are
    given [context=self]. *)
Definition compile_prompt (agent : Agent.t) : M string :=
  self ← get_self;
  let agents := AgentContext.agents self in
  present ← read_list agents;
  agents ← (if bool_decide (agent ∉ present)
            then new_list (present ++ [agent])
            else mret agents);
  members ← read_list agents;
  registered ← read_list (AgentContext.agents self);
  let prompts :=
    (map (fun agent => Agent_get_prompt agent self registered) (reverse members)
     ++ [ Flow_get_prompt (flow self) self registered;
          TasksTemplate_render (tasks self) self registered;
          ToolTemplate_render (tools self) self registered;
          InstructionsTemplate_render (AgentContext.instructions self) self registered ])%list in
  mret (String.concat blank_line (filter (fun p => p ≠ "") prompts)).

End compile_prompt.

Section compile_messages.

(** [Flow.get_events], as [AgentContext.get_events] calls it: every filter
    is a keyword that may be left out ([None]).  Not among the sources: any
    implementation. *)
Variable Flow_get_events :
  Flow.t → option (list Agent.t) → option (list Task.t) → option (list string)
  → option Z → list Event.t.

(** Lines 74-76.  [limit or 100]: [None] and 0 are false. *)
Definition get_events (limit : option Z) : M (list Event.t) :=
  self ← get_self;
  let limit :=
    match limit with
    | None | Some 0%Z => 100%Z
    | Some limit => limit
    end in
  let events := Flow_get_events (flow self) None None None (Some limit) in
  mret events.

(** The rules of the agent's model and the messages handed to it, both
    opaque; [MessageCompiler] and [Agent.get_llm_rules] are not among the
    sources: any implementation. *)
Variable LLMRules : Type.
Variable BaseMessage : Type.
Variable Agent_get_llm_rules : Agent.t → LLMRules.
Variable MessageCompiler_compile_to_messages :
  list Event.t → LLMRules → string → Agent.t → list BaseMessage.

Variable Agent_get_prompt : Agent.t → t → list Agent.t → string.
Variable Flow_get_prompt : Flow.t → t → list Agent.t → string.
Variable TasksTemplate_render : list Task.t → t → list Agent.t → string.
Variable ToolTemplate_render : list Tool.t → t → list Agent.t → string.
Variable InstructionsTemplate_render : list string → t → list Agent.t → string.

(** Lines 98-106.  The events are read first; the arguments of the compiler
    are evaluated in the order they are written. *)
Definition compile_messages (agent : Agent.t) : M (list BaseMessage) :=
  events ← get_events None;
  let llm_rules := Agent_get_llm_rules agent in
  system_prompt ← compile_prompt Agent_get_prompt Flow_get_prompt TasksTemplate_render
                     ToolTemplate_render InstructionsTemplate_render agent;
  let messages :=
    MessageCompiler_compile_to_messages events llm_rules system_prompt agent in
  mret messages.

End compile_messages.

End AgentContext.

(** The values a wrapped function is called with. *)
Inductive Value : Type :=
| VNone
| VBool (b : bool)
| VInt (z : Z)
| VStr (s : string)
| VContext (context : AgentContext.t).

(** [bool(v)]: a context object is true, as every object without [__bool__]
    and [__len__]. *)
Definition truthy (v : Value) : bool :=
  match v with
  | VNone => false
  | VBool b => b
  | VInt z => negb (z =? 0)
  | VStr s => negb (String.eqb s "")
  | VContext _ => true
  end.

(** Lines 118-119.  [ctx] ([utilities/context.py]) holds the ambient values
    by name; [ctx.get(name)] is [None] where there is none. *)
Definition get_context (ctx : gmap string Value) : Value :=
  default VNone (ctx !! "agent_context").

Section provide_agent_context.

(** What the wrapped function returns, or does. *)
Variable R : Type.

(** A function called with positional arguments [args] and keyword
    arguments [kwargs]; a wrapper reads, besides, the ambient values at the
    call. *)
Definition Fn : Type := list Value → gmap string Value → R.
Definition Wrapper : Type := gmap string Value → Fn.

(** Lines 129-133. *)
Definition wrapper (fn : Fn) (context_kwarg : string) : Wrapper :=
  fun ctx args kwargs =>
    let kwargs :=
      if bool_decide (context_kwarg ∉ dom kwargs) then
        let context := get_context ctx in
        if truthy context then <[context_kwarg := context]> kwargs else kwargs
      else kwargs in
    fn args kwargs.

(** Lines 122-135.  Without [fn] the result is the decorator that waits for
    it, [partial(provide_agent_context, context_kwarg=context_kwarg)]. *)
Definition provide_agent_context (fn : option Fn) (context_kwarg : option string)
    : (Fn → Wrapper) + Wrapper :=
  let decorate (fn : Fn) : Wrapper :=
    let context_kwarg :=
      match context_kwarg with
      | None | Some "" => "context"
      | Some name => name
      end in
    wrapper fn context_kwarg in
  match fn with
  | None => inl decorate
  | Some fn => inr (decorate fn)
  end.

End provide_agent_context.

(** The scope of a context (lines 40 and 108-115).  [_context] is the
    private attribute: [None] before the first [__enter__], then an
    [ExitStack], here the list of what its exit callbacks restore, the last
    entered first; a closed stack is empty. *)
Module Scope.

Record t : Type := mk {
  context : AgentContext.t;
  _context : option (list (gmap string Value))
}.

(** Modelled from the spec: [ctx(agent_context=self)] ([utilities/context.py])
    is not among the sources.  Entering the scope it returns "installs" the
    given value "as the ambient context"; leaving it puts the ambient values
    back as they were at the entry. *)
Definition ctx_enter (name : string) (v : Value) (ctx : gmap string Value)
    : gmap string Value * gmap string Value :=
  (<[name := v]> ctx, ctx).

(** [ExitStack.close()]: the exit callbacks run, the last entered first, and
    the stack is left empty. *)
Definition ExitStack_close (stack : list (gmap string Value)) (ctx : gmap string Value)
    : gmap string Value :=
  fold_left (fun _ saved => saved) stack ctx.

(** No scope of the object is open: it was never entered, or its stack is
    closed. *)
Definition not_open (self : t) : Prop :=
  _context self = None ∨ _context self = Some [].

(** Lines 108-111.  The result is the object, which [__enter__] returns, and
    the ambient values.  [self._context = ExitStack()] drops the stack of an
    earlier entry; nothing else refers to it, so the scopes it still holds
    are left at this point, before the new one is entered. *)
Definition __enter__ (self : t) (ctx : gmap string Value) : t * gmap string Value :=
  let ctx :=
    match _context self with
    | Some dropped => ExitStack_close dropped ctx
    | None => ctx
    end in
  let stack := [] in
  let '(ctx, saved) := ctx_enter "agent_context" (VContext (context self)) ctx in
  let stack := saved :: stack in
  (mk (context self) (Some stack), ctx).

(** Lines 113-115.  [self._context.close()] on an object never entered is an
    attribute access on [None]. *)
Definition __exit__ (self : t) (ctx : gmap string Value)
    : Result (bool * t * gmap string Value) :=
  match _context self with
  | None => Err (AttributeError "close")
  | Some stack => Ok (false, mk (context self) (Some []), ExitStack_close stack ctx)
  end.

End Scope.

(** ** [agents/teams.py] *)

Module Team.

Record t : Type := mk {
  class_name : string;              (* type(self).__name__ *)
  name : string;
  description : option string;
  prompt : option string;
  instructions : option string;
  agents : list Agent.t;
  _iterations : Z
}.

Definition set_iterations (self : t) (v : Z) : t :=
  mk (class_name self) (name self) (description self) (prompt self)
     (instructions self) (agents self) v.

(** Lines 45-55.  [id_tuple] is the tuple that is hashed. *)
Definition optional (v : option string) : PyObj :=
  match v with
  | None => PyNone
  | Some s => PyStr s
  end.

Definition id_tuple (self : t) : PyObj :=
  PyTuple [ PyStr (class_name self);
            PyStr (name self);
            optional (description self);
            optional (prompt self);
            optional (instructions self);
            PyList (map (fun a => PyStr (Agent.id a)) (agents self)) ].

Definition _generate_id (self : t) : string :=
  hash_objects (id_tuple self) 8.

(** The fields the identifier is derived from agree. *)
Definition same_id_fields (self other : t) : Prop :=
  class_name self = class_name other
  ∧ name self = name other
  ∧ description self = description other
  ∧ prompt self = prompt other
  ∧ instructions self = instructions other
  ∧ map Agent.id (agents self) = map Agent.id (agents other).

(** [validate_agents] runs before type validation, on the raw argument:
    [None] or a list.  [not v] holds of [None] and of the empty list. *)
Definition validate_agents (v : option (list Agent.t)) : Result (list Agent.t) :=
  match v with
  | None | Some [] => Err (ValueError "A team must have at least one agent.")
  | Some v => Ok v
  end.

(** A keyword argument of the constructor: left out, or passed. *)
Inductive Supplied (A : Type) : Type :=
| Omitted
| Passed (v : A).
Arguments Omitted {A}.
Arguments Passed {A} v.

(** [Team(agents=..., name=..., ...)].  [agents] is declared without a
    default, so it is required; [name] defaults to "Agents", the optional
    texts to [None], the counter to 0.  The validator's [ValueError] reaches
    the caller as a validation error. *)
Definition create (agents : Supplied (option (list Agent.t))) (name : Supplied string)
    (description prompt instructions : option string) : Result t :=
  match agents with
  | Omitted => Err (ValidationError "Field required")
  | Passed v =>
      match validate_agents v with
      | Ok v =>
          Ok (mk "Team" (match name with Passed s => s | Omitted => "Agents" end)
                 description prompt instructions v 0)
      | Err (ValueError msg) => Err (ValidationError (String.append "Value error, " msg))
      | Err e => Err e
      end
  end.

Section get_agent.

(** [Flow.get_events] is not among the sources: any implementation. *)
Variable get_events :
  Flow.t -> list Agent.t -> list Task.t -> list string -> option Z -> list Event.t.

(** Lines 95-97, the rotation step: [len(self.agents)] is 0 only for a team
    without members, where [%] raises. *)
Definition rotation (self : t) : Result (Agent.t * t) :=
  let n := Z.of_nat (length (agents self)) in
  if n =? 0 then Err ZeroDivisionError
  else
    match agents self !! Z.to_nat (_iterations self mod n) with
    | Some agent => Ok (agent, set_iterations self (_iterations self + 1))
    | None => Err IndexError
    end.

(** [get_agent] returns the chosen agent and the team after the call. *)
Definition get_agent (self : t) (context : AgentContext.t) : Result (Agent.t * t) :=
  let last_agent_event :=
    get_events (AgentContext.flow context) (agents self) (AgentContext.tasks context)
               ["tool-result"; "agent-message"] (Some 1) in
  match last_agent_event with
  | e :: _ =>
      if String.eqb (Event.event e) "tool-result" then
        match Event.tool_result e with
        | None => Err (AttributeError "tool_result")
        | Some tool_result =>
            if negb (ToolResult.end_turn tool_result)
            then Ok (Event.agent e, self)
            else rotation self
        end
      else rotation self
  | [] => rotation self
  end.

(** Consecutive calls of [get_agent], one per context of the list (the
    contexts may differ in their flow's log): the agents chosen, in order,
    and the team after the last call. *)
Fixpoint get_agent_each (self : t) (contexts : list AgentContext.t)
    : Result (list Agent.t * t) :=
  match contexts with
  | [] => Ok ([], self)
  | context :: contexts =>
      '(agent, self) ← get_agent self context;
      '(chosen, self) ← get_agent_each self contexts;
      Ok (agent :: chosen, self)
  end.

(** The query [get_agent] issues for [self] in [context]. *)
Definition last_agent_event (self : t) (context : AgentContext.t) : list Event.t :=
  get_events (AgentContext.flow context) (agents self) (AgentContext.tasks context)
             ["tool-result"; "agent-message"] (Some 1).

End get_agent.

(** The continuation condition of the specification, on the answer to the
    query: the most recent event exists, is a tool result and does not end
    the turn. *)
Definition holds_turn (events : list Event.t) : Prop :=
  match events with
  | e :: _ =>
      Event.event e = "tool-result"
      ∧ ∃ tool_result, Event.tool_result e = Some tool_result
                       ∧ ToolResult.end_turn tool_result = false
  | [] => False
  end.

(** The condition does not hold: there is no event, or the most recent one
    is of another kind, or it is a tool result that ends the turn. *)
Definition yields_turn (events : list Event.t) : Prop :=
  match events with
  | e :: _ =>
      Event.event e ≠ "tool-result"
      ∨ ∃ tool_result, Event.tool_result e = Some tool_result
                       ∧ ToolResult.end_turn tool_result = true
  | [] => True
  end.

(** What the specification says of the log's answer to a query for the
    events of [agents]: each event returned is owned by one of them; and, as
    the event kinds are discriminated, one of kind "tool-result" carries its
    tool result. *)
Definition answers_for (agents : list Agent.t) (events : list Event.t) : Prop :=
  Forall (fun e => Event.agent e ∈ agents
                   ∧ (Event.event e = "tool-result" → is_Some (Event.tool_result e)))
         events.

(** The condition of lines 88-92 as a truth value, on events whose kind
    tells their payload. *)
Definition held (events : list Event.t) : bool :=
  match events with
  | e :: _ =>
      String.eqb (Event.event e) "tool-result"
      && match Event.tool_result e with
         | Some tool_result => negb (ToolResult.end_turn tool_result)
         | None => false
         end
  | [] => false
  end.

End Team.

(** ** A run of two agents, for the examples *)

Module Scenario.

Definition alice : Agent.t := Agent.mk "a11ce001" "Alice" None None None.
Definition bob : Agent.t := Agent.mk "b0b00002" "Bob" None None None.
Definition carol : Agent.t := Agent.mk "ca701003" "Carol" None None None.

Definition task : Task.t := Task.mk "7a5c0001" "Greet the user".

Definition team : Team.t := Team.mk "Team" "Agents" None None None [alice; bob] 0.

Definition tool_result_event (agent : Agent.t) (end_turn : bool) : Event.t :=
  Event.mk "tool-result" agent (Some (ToolResult.mk end_turn)) true
           (Some "thread-1") [Task.id task] [Agent.id agent].

Definition agent_message_event (agent : Agent.t) : Event.t :=
  Event.mk "agent-message" agent None true (Some "thread-1") [Task.id task] [Agent.id agent].

(** The context of the run when the flow's log is [log]. *)
Definition context (log : list Event.t) : AgentContext.t :=
  AgentContext.mk (Flow.mk "thread-1" log) [task] [] 1%positive [] [].

(** The state of the run: [alice] and [bob] are registered, in this order;
    two handlers listen. *)
Definition state : AgentContext.State :=
  {| AgentContext.self :=
       AgentContext.mk (Flow.mk "thread-1" []) [task] [] 1%positive
                       [Handler.mk "print"; Handler.mk "record"] ["Be brief."];
     AgentContext.lists := {[ 1%positive := [alice; bob] ]};
     AgentContext.calls := [] |}.

(** Renderings for the examples: an agent's prompt is its name, the flow's
    prompt a fixed line, the task and tool lists render as nothing, the
    instructions as their concatenation. *)
Definition agent_prompt (agent : Agent.t) (_ : AgentContext.t) (_ : list Agent.t) : string :=
  Agent.name agent.
Definition flow_prompt (_ : Flow.t) (_ : AgentContext.t) (_ : list Agent.t) : string :=
  "# Flow".
Definition no_prompt {A : Type} (_ : A) (_ : AgentContext.t) (_ : list Agent.t) : string :=
  "".
Definition instructions_prompt (instructions : list string) (_ : AgentContext.t)
    (_ : list Agent.t) : string :=
  String.concat " " instructions.

(** Associations for the examples: the identifiers are appended. *)
Definition add_tasks (e : Event.t) (tasks : list Task.t) : Event.t :=
  Event.mk (Event.event e) (Event.agent e) (Event.tool_result e) (Event.persist e)
           (Event.thread_id e) (Event.task_ids e ++ map Task.id tasks) (Event.agent_ids e).
Definition add_agents (e : Event.t) (agents : list Agent.t) : Event.t :=
  Event.mk (Event.event e) (Event.agent e) (Event.tool_result e) (Event.persist e)
           (Event.thread_id e) (Event.task_ids e) (Event.agent_ids e ++ map Agent.id agents).

(** An event as [carol] emits it, before the context has seen it. *)
Definition new_event (persist : bool) : Event.t :=
  Event.mk "agent-message" carol None persist None [] [].

(** A function that returns the arguments it is called with. *)
Definition echo : Fn (list Value * gmap string Value) :=
  fun args kwargs => (args, kwargs).

(** A log that answers every query with the same events. *)
Definition always (events : list Event.t)
    : Flow.t → list Agent.t → list Task.t → list string → option Z → list Event.t :=
  fun _ _ _ _ _ => events.

(** A team without members, which only the record allows. *)
Definition nobody : Team.t := Team.mk "Team" "Agents" None None None [] 0.

(** A log read without filters, newest first, and a compiler that puts the
    prompt before the kinds of the events. *)
Definition newest (flow : Flow.t) (_ : option (list Agent.t)) (_ : option (list Task.t))
    (_ : option (list string)) (limit : option Z) : list Event.t :=
  match limit with
  | Some n => take (Z.to_nat n) (reverse (Flow.events flow))
  | None => Flow.events flow
  end.
Definition to_messages (events : list Event.t) (_ : unit) (system_prompt : string)
    (_ : Agent.t) : list string :=
  system_prompt :: map Event.event events.

(** Two contexts never entered, and the ambient values when another
    context is ambient. *)
Definition outer_scope : Scope.t := Scope.mk (context []) None.
Definition inner_scope : Scope.t :=
  Scope.mk (context [agent_message_event bob]) None.
Definition ambient : gmap string Value :=
  {[ "agent_context" := VContext (context []) ]}.

(** Two teams of the same members that differ in their name. *)
Definition team_61171 : Team.t :=
  Team.mk "Team" "Team 61171" None None None [alice; bob] 0.
Definition team_155859 : Team.t :=
  Team.mk "Team" "Team 155859" None None None [alice; bob] 0.

End Scenario.

(** * Properties *)

Local Open Scope list_scope.

(** ** Turn selection *)

Section TurnSelection.

Variable get_events :
  Flow.t -> list Agent.t -> list Task.t -> list string -> option Z -> list Event.t.

Local Abbreviation get_agent := (Team.get_agent get_events).
Local Abbreviation get_agent_each := (Team.get_agent_each get_events).
Local Abbreviation last_agent_event := (Team.last_agent_event get_events).

Lemma set_iterations_agents self v :
  Team.agents (Team.set_iterations self v) = Team.agents self.
Proof. reflexivity. Qed.

Lemma set_iterations_twice self v w :
  Team.set_iterations (Team.set_iterations self v) w = Team.set_iterations self w.
Proof. reflexivity. Qed.

Lemma length_agents_pos self :
  Team.agents self ≠ [] → 0 < Z.of_nat (length (Team.agents self)).
Proof. destruct (Team.agents self); [congruence | simpl; lia]. Qed.

(** The rotation step succeeds on a team with members: it picks the member
    at index [_iterations mod len] and adds one to the counter. *)
Lemma rotation_spec self :
  Team.agents self ≠ [] →
  ∃ agent,
    Team.agents self !! Z.to_nat (Team._iterations self mod Z.of_nat (length (Team.agents self)))
      = Some agent
    ∧ Team.rotation self
      = Ok (agent, Team.set_iterations self (Team._iterations self + 1)).
Proof.
  intros Hne. pose proof (length_agents_pos self Hne) as Hpos.
  unfold Team.rotation.
  destruct (Z.eqb_spec (Z.of_nat (length (Team.agents self))) 0) as [Hz | _]; [lia |].
  pose proof (Z.mod_pos_bound (Team._iterations self) _ Hpos) as Hbound.
  destruct (lookup_lt_is_Some_2 (Team.agents self)
              (Z.to_nat (Team._iterations self mod Z.of_nat (length (Team.agents self)))))
    as [agent Hagent]; [lia |].
  exists agent. by rewrite Hagent.
Qed.

(** When the continuation condition does not hold, [get_agent] is the
    rotation step. *)
Lemma get_agent_yields self context :
  Team.yields_turn (last_agent_event self context) →
  get_agent self context = Team.rotation self.
Proof.
  unfold Team.get_agent, Team.last_agent_event, Team.yields_turn.
  destruct (get_events _ _ _ _ _) as [| e rest]; [done |].
  intros [Hkind | (tool_result & -> & ->)].
  - apply String.eqb_neq in Hkind. by rewrite Hkind.
  - simpl. by destruct (String.eqb _ _).
Qed.

Lemma get_agent_holds self context :
  Team.holds_turn (last_agent_event self context) →
  ∃ e rest, last_agent_event self context = e :: rest
            ∧ get_agent self context = Ok (Event.agent e, self).
Proof.
  unfold Team.get_agent, Team.last_agent_event, Team.holds_turn.
  destruct (get_events _ _ _ _ _) as [| e rest]; [done |].
  intros (Hkind & tool_result & -> & ->).
  exists e, rest. split; [done |].
  apply String.eqb_eq in Hkind. by rewrite Hkind.
Qed.

(** [k] consecutive calls without continuation, from counter [c]: the
    [i]-th call picks the member at index [(c + i) mod len], and the counter
    ends at [c + k]. *)
Lemma get_agent_each_yields contexts : ∀ self,
  Team.agents self ≠ [] →
  Forall (fun context => Team.yields_turn (last_agent_event self context)) contexts →
  ∃ chosen,
    get_agent_each self contexts
      = Ok (chosen,
            Team.set_iterations self (Team._iterations self + Z.of_nat (length contexts)))
    ∧ length chosen = length contexts
    ∧ ∀ i, (i < length contexts)%nat →
        chosen !! i
        = Team.agents self
            !! Z.to_nat ((Team._iterations self + Z.of_nat i)
                         mod Z.of_nat (length (Team.agents self))).
Proof.
  induction contexts as [| context contexts IH]; intros self Hne Hall.
  - exists []. repeat split.
    + simpl. rewrite Z.add_0_r. by destruct self.
    + intros i Hi. simpl in Hi. lia.
  - inversion Hall as [| ? ? Hhead Htail]; subst.
    destruct (rotation_spec self Hne) as (agent & Hlookup & Hrot).
    destruct (IH (Team.set_iterations self (Team._iterations self + 1)) Hne Htail)
      as (chosen & Heach & Hlen & Hnth).
    exists (agent :: chosen). repeat split.
    + cbn [Team.get_agent_each]. rewrite (get_agent_yields _ _ Hhead), Hrot. cbn.
      rewrite Heach. cbn. rewrite set_iterations_twice. do 3 f_equal.
      simpl length. lia.
    + simpl. by rewrite Hlen.
    + intros [| i] Hi.
      * simpl. by rewrite Z.add_0_r.
      * simpl in Hi. simpl lookup at 1. rewrite Hnth by lia.
        rewrite set_iterations_agents. simpl Team._iterations.
        do 3 f_equal. lia.
Qed.

(** C1.  If the most recent relevant event exists, is of kind "tool-result"
    and has [end_turn = false], [get_agent] returns the agent of that event
    and the team is as before the call: the counter [_iterations] has not
    moved. *)
Theorem get_agent_continues_turn self context e rest tool_result :
  last_agent_event self context = e :: rest →
  Event.event e = "tool-result" →
  Event.tool_result e = Some tool_result →
  ToolResult.end_turn tool_result = false →
  ∃ self',
    get_agent self context = Ok (Event.agent e, self')
    ∧ Team._iterations self' = Team._iterations self
    ∧ self' = self.
Proof.
  intros Hlast Hkind Hpayload Hend. exists self.
  destruct (get_agent_holds self context) as (e' & rest' & Hlast' & Hget).
  - rewrite Hlast. simpl. eauto.
  - rewrite Hlast in Hlast'. by simplify_eq.
Qed.

(** C2.  On a team with members [M] and counter [c], a call in which the
    continuation condition does not hold returns [M[c mod len(M)]] and
    leaves the counter at [c + 1]; [len(M)] consecutive such calls return
    the members in list order starting at index [c mod len(M)] and wrapping
    around, which is every member exactly once, and leave the counter at
    [c + len(M)]. *)
Theorem get_agent_round_robin self :
  Team.agents self ≠ [] →
  let M := Team.agents self in
  let c := Team._iterations self in
  (∀ context,
     Team.yields_turn (last_agent_event self context) →
     ∃ agent,
       M !! Z.to_nat (c mod Z.of_nat (length M)) = Some agent
       ∧ get_agent self context = Ok (agent, Team.set_iterations self (c + 1)))
  ∧ (∀ contexts,
       length contexts = length M →
       Forall (fun context => Team.yields_turn (last_agent_event self context)) contexts →
       get_agent_each self contexts
         = Ok (rotate (Z.to_nat (c mod Z.of_nat (length M))) M,
               Team.set_iterations self (c + Z.of_nat (length M)))
       ∧ rotate (Z.to_nat (c mod Z.of_nat (length M))) M ≡ₚ M).
Proof.
  intros Hne M c. split.
  - intros context Hyield.
    destruct (rotation_spec self Hne) as (agent & Hlookup & Hrot).
    exists agent. split; [done |]. by rewrite (get_agent_yields _ _ Hyield).
  - intros contexts Hlen Hall.
    destruct (get_agent_each_yields contexts self Hne Hall) as (chosen & Heach & Hlen' & Hnth).
    pose proof (length_agents_pos self Hne) as Hpos.
    split.
    + rewrite Heach, Hlen. do 2 f_equal.
      apply list_eq. intros i.
      destruct (decide (i < length M)%nat) as [Hi | Hi].
      * rewrite Hnth by lia. rewrite lookup_rotate_r by done.
        unfold rotate_nat_add. fold M c. do 2 f_equal.
        rewrite Z2Nat.id by (apply Z.mod_pos_bound; lia).
        by rewrite Zplus_mod_idemp_l.
      * rewrite !lookup_ge_None_2; [done | rewrite length_rotate; lia | lia].
    + unfold rotate. rewrite Permutation_app_comm. by rewrite take_drop.
Qed.

(** C3.  If the most recent relevant event is a tool result with
    [end_turn = true], or is an agent message, or there is no relevant
    event, [get_agent] applies rotation: on a team with members it returns
    [members[counter mod len]] and adds one to the counter. *)
Theorem get_agent_rotates_otherwise self context :
  Team.agents self ≠ [] →
  (∃ e rest, last_agent_event self context = e :: rest
             ∧ ((Event.event e = "tool-result"
                 ∧ ∃ tool_result, Event.tool_result e = Some tool_result
                                  ∧ ToolResult.end_turn tool_result = true)
                ∨ Event.event e = "agent-message"))
  ∨ last_agent_event self context = [] →
  ∃ agent,
    Team.agents self
      !! Z.to_nat (Team._iterations self mod Z.of_nat (length (Team.agents self)))
      = Some agent
    ∧ get_agent self context
      = Ok (agent, Team.set_iterations self (Team._iterations self + 1))
    ∧ get_agent self context = Team.rotation self.
Proof.
  intros Hne Hcases.
  assert (Team.yields_turn (last_agent_event self context)) as Hyield.
  { destruct Hcases as [(e & rest & -> & [(_ & Hend) | Hmsg]) | ->]; simpl; [by right | | done].
    left. by rewrite Hmsg. }
  destruct (rotation_spec self Hne) as (agent & Hlookup & Hrot).
  exists agent. rewrite (get_agent_yields _ _ Hyield). by rewrite Hrot.
Qed.

(** C6.  Constructing a team without the member list, with [None] or with
    an empty list raises a validation error; constructing one with at least
    one member succeeds and keeps the members given.  Hence a team that
    exists has members, and on it, whatever its counter, the rotation step
    returns a member (there is no empty selection), and [get_agent] returns
    a member whenever the log answers the query as the specification says,
    and leaves the member list as it is. *)
Theorem team_is_never_empty agents name description prompt instructions :
  (agents = Team.Omitted ∨ agents = Team.Passed None ∨ agents = Team.Passed (Some []) →
   ∃ msg, Team.create agents name description prompt instructions
          = Err (ValidationError msg))
  ∧ (∀ a l, agents = Team.Passed (Some (a :: l)) →
       ∃ self, Team.create agents name description prompt instructions = Ok self
               ∧ Team.agents self = a :: l)
  ∧ (∀ self, Team.create agents name description prompt instructions = Ok self →
       Team.agents self ≠ []
       ∧ ∀ c context,
           (∃ agent, Team.rotation (Team.set_iterations self c)
                     = Ok (agent, Team.set_iterations self (c + 1))
                     ∧ agent ∈ Team.agents self)
           ∧ get_agent (Team.set_iterations self c) context ≠ Err ZeroDivisionError
           ∧ get_agent (Team.set_iterations self c) context ≠ Err IndexError
           ∧ (Team.answers_for (Team.agents self)
                (last_agent_event (Team.set_iterations self c) context) →
              ∃ agent self',
                get_agent (Team.set_iterations self c) context = Ok (agent, self')
                ∧ agent ∈ Team.agents self
                ∧ Team.agents self' = Team.agents self)).
Proof.
  split; [| split].
  - intros [-> | [-> | ->]]; simpl; eauto.
  - intros a l ->. simpl. eauto.
  - intros self Hcreate.
    assert (Team.agents self ≠ []) as Hne.
    { destruct agents as [| [[| a l] |]]; simpl in Hcreate; simplify_eq. done. }
    split; [done |]. intros c context.
    destruct (rotation_spec (Team.set_iterations self c) Hne) as (agent & Hlookup & Hrot).
    rewrite set_iterations_twice in Hrot. simpl in Hrot.
    assert (agent ∈ Team.agents self) as Hin.
    { eapply list_elem_of_lookup_2. exact Hlookup. }
    assert (∀ e, get_agent (Team.set_iterations self c) context = Err e →
                 e = AttributeError "tool_result") as Herr.
    { intros err. unfold Team.get_agent. rewrite Hrot.
      destruct (get_events _ _ _ _ _) as [| e rest]; [done |].
      destruct (String.eqb _ _); [| done].
      destruct (Event.tool_result e) as [tr |]; [| by intros [= <-]].
      by destruct (negb _). }
    repeat split.
    + eauto.
    + intros Hget. by apply Herr in Hget.
    + intros Hget. by apply Herr in Hget.
    + unfold Team.answers_for, Team.last_agent_event, Team.get_agent.
      rewrite Hrot. simpl Team.agents.
      destruct (get_events _ _ _ _ _) as [| e rest]; [eauto |].
      intros Hanswer. apply Forall_cons in Hanswer as [[Howner Hpayload] _].
      destruct (String.eqb_spec (Event.event e) "tool-result") as [Hkind | _]; [| eauto].
      destruct (Hpayload Hkind) as [tr ->].
      destruct (negb _); eauto.
Qed.

End TurnSelection.

(** Witnesses and examples, with the log query of [Flow.get_events]. *)

(** C1 on the run of [Scenario]: after a tool result of [alice] that does
    not end the turn, [alice] is chosen once more. *)
Lemma get_agent_continues_turn_witness :
  ∃ self',
    Team.get_agent Flow.get_events Scenario.team
      (Scenario.context [Scenario.tool_result_event Scenario.alice false])
    = Ok (Scenario.alice, self')
    ∧ Team._iterations self' = 0
    ∧ self' = Scenario.team.
Proof.
  apply (get_agent_continues_turn Flow.get_events Scenario.team
           (Scenario.context [Scenario.tool_result_event Scenario.alice false])
           (Scenario.tool_result_event Scenario.alice false) []
           (ToolResult.mk false)); reflexivity.
Defined.

(** ** The run context *)

Section ContextProperties.

Import AgentContext.

(** Unfolds the sequencing of the state transformers and the primitive
    accesses to the context object. *)
Ltac step_method :=
  unfold mbind, M_bind, mret, M_ret, get_self, put_self, read_list.

Lemma state_eta s : {| self := self s; lists := lists s; calls := calls s |} = s.
Proof. by destruct s. Qed.

Lemma new_list_fresh v s : lists s !! (new_list v s).1 = None.
Proof. simpl. apply not_elem_of_dom. apply is_fresh. Qed.

(** A list that exists in the store is not the one [new_list] makes. *)
Lemma new_list_other v s l :
  is_Some (lists s !! l) → lists (new_list v s).2 !! l = lists s !! l.
Proof.
  intros Hl. simpl. apply lookup_insert_ne. intros <-.
  pose proof (new_list_fresh v s) as Hfresh. simpl in Hfresh.
  rewrite Hfresh in Hl. by destruct Hl.
Qed.

(** The loop over the handlers calls each of them once, in the order of the
    list, with the same event, and does nothing else. *)
Lemma for_each_handlers event handlers : ∀ s,
  for_each handlers (fun handler => Handler_handle handler event) s
  = (tt, {| self := self s; lists := lists s;
            calls := calls s ++ map (fun handler => Handle handler event) handlers |}).
Proof.
  induction handlers as [| handler handlers IH]; intros s.
  - simpl. rewrite app_nil_r. by rewrite state_eta.
  - cbn [for_each]. step_method. cbn [Handler_handle call].
    rewrite IH. cbn. by rewrite <- app_assoc.
Qed.

(** [add_agent] on a registered agent changes nothing; on another agent it
    registers it last, in a new list. *)
Lemma add_agent_registered agent s :
  agent ∈ participants s → add_agent agent s = (tt, s).
Proof.
  intros Hin. unfold add_agent. step_method. fold (participants s).
  rewrite bool_decide_eq_false_2; [done |]. by intros ?.
Qed.

Lemma add_agent_new agent s :
  agent ∉ participants s →
  participants (after (add_agent agent) s) = participants s ++ [agent]
  ∧ lists s ⊆ lists (after (add_agent agent) s)
  ∧ calls (after (add_agent agent) s) = calls s.
Proof.
  intros Hnotin. unfold after, add_agent. step_method. fold (participants s). rewrite bool_decide_eq_true_2 by done.
  cbn. unfold participants. cbn. rewrite lookup_insert_eq. split; [done |].
  split; [| done]. apply insert_subseteq, not_elem_of_dom, is_fresh.
Qed.

(** C8.  Adding an agent a second time leaves the state of the first
    addition, hence the participant list, as it is, in length and order; and
    adding an agent that is already a participant changes nothing. *)
Theorem add_agent_idempotent agent s :
  after (add_agent agent) (after (add_agent agent) s) = after (add_agent agent) s
  ∧ participants (after (add_agent agent) (after (add_agent agent) s))
    = participants (after (add_agent agent) s)
  ∧ (agent ∈ participants s →
     after (add_agent agent) s = s
     ∧ participants (after (add_agent agent) s) = participants s).
Proof.
  assert (agent ∈ participants (after (add_agent agent) s)) as Hin.
  { destruct (decide (agent ∈ participants s)) as [Hreg | Hnew].
    - unfold after. by rewrite add_agent_registered.
    - destruct (add_agent_new agent s Hnew) as (-> & _). set_solver. }
  assert (after (add_agent agent) (after (add_agent agent) s) = after (add_agent agent) s)
    as Htwice.
  { unfold after at 1. by rewrite add_agent_registered. }
  split; [done |]. split; [by rewrite Htwice |].
  intros Hreg. unfold after. by rewrite add_agent_registered.
Qed.

Section HandleEvent.

Variable Event_add_tasks : Event.t → list Task.t → Event.t.
Variable Event_add_agents : Event.t → list Agent.t → Event.t.

Local Abbreviation handle_event := (handle_event Event_add_tasks Event_add_agents).
Local Abbreviation enriched := (enriched Event_add_tasks Event_add_agents).

(** What [handle_event] does, for a persist decision [decision]. *)
Lemma handle_event_decided event persist s :
  let decision := default (Event.persist event) persist in
  handle_event event persist s
  = (enriched s event,
     {| self := if decision
                then set_flow (self s) (Flow.add_events (flow (self s)) [enriched s event])
                else self s;
        lists := lists s;
        calls := calls s
                 ++ map (fun handler => Handle handler (enriched s event)) (handlers (self s))
                 ++ (if decision then [AddEvents [enriched s event]] else []) |}).
Proof.
  intros decision. unfold AgentContext.handle_event. step_method.
  fold (participants s). fold (enriched s event).
  rewrite for_each_handlers.
  replace (match persist with Some p => p | None => Event.persist event end)
    with decision by (by destruct persist).
  destruct decision; unfold Flow_add_events, call; step_method; cbn.
  - by rewrite <- app_assoc.
  - by rewrite app_nil_r.
Qed.

(** C4.  With [persist=None] the decision is the event's own [persist].  The
    event is stamped with the flow's thread identifier, then associated with
    the tasks and with the participants ([enriched]); the handlers are then
    called with it, each once and in registration order, whatever the
    decision; last, exactly when the decision is true, the event is added to
    the flow's log, once, after all the handler calls.  Nothing else
    changes. *)
Theorem handle_event_default event s :
  handle_event event None s = handle_event event (Some (Event.persist event)) s
  ∧ (handle_event event None s).1 = enriched s event
  ∧ calls (after (handle_event event None) s)
    = calls s
      ++ map (fun handler => Handle handler (enriched s event)) (handlers (self s))
      ++ (if Event.persist event then [AddEvents [enriched s event]] else [])
  ∧ Flow.events (flow (self (after (handle_event event None) s)))
    = Flow.events (flow (self s))
      ++ (if Event.persist event then [enriched s event] else [])
  ∧ self (after (handle_event event None) s)
    = (if Event.persist event
       then set_flow (self s) (Flow.add_events (flow (self s)) [enriched s event])
       else self s)
  ∧ lists (after (handle_event event None) s) = lists s.
Proof.
  unfold after. rewrite !handle_event_decided. cbn.
  repeat split. destruct (Event.persist event); cbn; [done | by rewrite app_nil_r].
Qed.

End HandleEvent.

Section CompilePrompt.

Variable Agent_get_prompt : Agent.t → t → list Agent.t → string.
Variable Flow_get_prompt : Flow.t → t → list Agent.t → string.
Variable TasksTemplate_render : list Task.t → t → list Agent.t → string.
Variable ToolTemplate_render : list Tool.t → t → list Agent.t → string.
Variable InstructionsTemplate_render : list string → t → list Agent.t → string.

Local Abbreviation compile_prompt :=
  (compile_prompt Agent_get_prompt Flow_get_prompt TasksTemplate_render
     ToolTemplate_render InstructionsTemplate_render).

(** The renderings that follow the agent prompts, in the order of the
    join. *)
Local Abbreviation context_prompts s :=
  [ Flow_get_prompt (flow (self s)) (self s) (participants s);
    TasksTemplate_render (tasks (self s)) (self s) (participants s);
    ToolTemplate_render (tools (self s)) (self s) (participants s);
    InstructionsTemplate_render (instructions (self s)) (self s) (participants s) ].

(** One run of [compile_prompt], in a state whose participant list exists:
    the text, and the state, which is the one before unless the target is
    not registered, when the store holds one more list. *)
Lemma compile_prompt_run agent s :
  is_Some (lists s !! agents (self s)) →
  compile_prompt agent s
  = (String.concat blank_line
       (filter (fun p => p ≠ "")
          (map (fun a => Agent_get_prompt a (self s) (participants s))
               (prompt_order (participants s) agent)
           ++ context_prompts s)),
     if bool_decide (agent ∈ participants s) then s
     else (new_list (participants s ++ [agent]) s).2).
Proof.
  intros Hexists.
  unfold AgentContext.compile_prompt, prompt_order. step_method.
  fold (participants s).
  destruct (decide (agent ∈ participants s)) as [Hin | Hnotin].
  - rewrite bool_decide_eq_false_2 by (by intros ?).
    rewrite bool_decide_eq_true_2 by done.
    cbn. by fold (participants s).
  - rewrite bool_decide_eq_true_2 by done.
    rewrite bool_decide_eq_false_2 by done.
    pose proof (new_list_other (participants s ++ [agent]) s _ Hexists) as Hsame.
    cbn in Hsame |- *. rewrite lookup_insert_eq, Hsame. cbn.
    by fold (participants s).
Qed.

(** C5.  In a state whose participant list exists, [compile_prompt] returns
    the renderings joined by blank lines, the empty ones dropped, in this
    order: the prompts of the participants in reverse registration order,
    the target counting as registered last when it is not registered; then
    the flow's prompt, the tasks, the tools, the instructions.  With
    participants [P1; P2] and a target [P3] that is neither, the agent
    prompts are those of [P3], [P2], [P1], in this order. *)
Theorem compile_prompt_order agent s :
  is_Some (lists s !! agents (self s)) →
  (compile_prompt agent s).1
  = String.concat blank_line
      (filter (fun p => p ≠ "")
         (map (fun a => Agent_get_prompt a (self s) (participants s))
              (reverse (if bool_decide (agent ∈ participants s)
                        then participants s
                        else participants s ++ [agent]))
          ++ context_prompts s))
  ∧ (∀ P1 P2,
       participants s = [P1; P2] → agent ≠ P1 → agent ≠ P2 →
       (compile_prompt agent s).1
       = String.concat blank_line
           (filter (fun p => p ≠ "")
              ([ Agent_get_prompt agent (self s) [P1; P2];
                 Agent_get_prompt P2 (self s) [P1; P2];
                 Agent_get_prompt P1 (self s) [P1; P2] ]
               ++ context_prompts s))).
Proof.
  intros Hexists. rewrite compile_prompt_run by done. cbn [fst]. split; [done |].
  intros P1 P2 Hregistered Hne1 Hne2. unfold prompt_order. rewrite Hregistered.
  rewrite bool_decide_eq_false_2; [done |].
  rewrite !elem_of_cons, elem_of_nil. tauto.
Qed.

(** C10.  [compile_prompt] leaves the context as it was: the context object,
    with its tasks, tools, handlers and instructions and its reference to
    the participant list, is unchanged; so is every list of the store, the
    participant list among them; no collaborator is called.  The target is
    added to a new list only. *)
Theorem compile_prompt_frame agent s :
  is_Some (lists s !! agents (self s)) →
  self (after (compile_prompt agent) s) = self s
  ∧ participants (after (compile_prompt agent) s) = participants s
  ∧ tasks (self (after (compile_prompt agent) s)) = tasks (self s)
  ∧ tools (self (after (compile_prompt agent) s)) = tools (self s)
  ∧ handlers (self (after (compile_prompt agent) s)) = handlers (self s)
  ∧ instructions (self (after (compile_prompt agent) s)) = instructions (self s)
  ∧ (∀ l, is_Some (lists s !! l) → lists (after (compile_prompt agent) s) !! l = lists s !! l)
  ∧ lists s ⊆ lists (after (compile_prompt agent) s)
  ∧ calls (after (compile_prompt agent) s) = calls s.
Proof.
  intros Hexists. unfold after. rewrite compile_prompt_run by done. cbn [snd].
  destruct (bool_decide (agent ∈ participants s)).
  - repeat split; done.
  - pose proof (new_list_other (participants s ++ [agent]) s) as Hother.
    pose proof (new_list_fresh (participants s ++ [agent]) s) as Hfresh.
    cbn in Hother, Hfresh |- *. repeat split; try done.
    + unfold participants. cbn. by rewrite Hother.
    + by apply insert_subseteq.
Qed.

End CompilePrompt.

End ContextProperties.

(** ** The ambient context *)

Section ProvideAgentContext.

Variable R : Type.

(** The wrapper of [fn], however the decorator was applied: to [fn], or
    first to [context_kwarg] alone and then to [fn]. *)
Lemma provide_agent_context_wrapper (fn : Fn R) context_kwarg (w : Wrapper R) :
  provide_agent_context R (Some fn) context_kwarg = inr w
  ∨ (∃ decorate, provide_agent_context R None context_kwarg = inl decorate
                 ∧ w = decorate fn) →
  w = wrapper R fn (match context_kwarg with
                    | None | Some "" => "context"
                    | Some name => name
                    end).
Proof.
  intros [Hdirect | (decorate & Hpartial & ->)].
  - by injection Hdirect as <-.
  - by injection Hpartial as <-.
Qed.

(** C9, as amended.  Let [w] wrap [fn] and [name] be the keyword of the
    context, "context" unless another is given.  In a call of [w]: if the caller
    passed [name] among the keyword arguments, [fn] is called with the
    arguments as given; if not, and the ambient context is a context object,
    [fn] is called with the keyword arguments extended by [name], bound to
    that object, whatever the positional arguments are; and if there is no
    ambient context, [fn] is called with the arguments as given. *)
Theorem provide_agent_context_injects (fn : Fn R) context_kwarg (w : Wrapper R)
    ctx args kwargs :
  provide_agent_context R (Some fn) context_kwarg = inr w
  ∨ (∃ decorate, provide_agent_context R None context_kwarg = inl decorate
                 ∧ w = decorate fn) →
  ∃ name,
    name = match context_kwarg with
           | None | Some "" => "context"
           | Some name => name
           end
    ∧ (is_Some (kwargs !! name) → w ctx args kwargs = fn args kwargs)
    ∧ (kwargs !! name = None →
       ∀ context, get_context ctx = VContext context →
         w ctx args kwargs = fn args (<[name := VContext context]> kwargs))
    ∧ (get_context ctx = VNone → w ctx args kwargs = fn args kwargs).
Proof.
  intros Hw. apply provide_agent_context_wrapper in Hw as ->.
  eexists. split; [reflexivity |]. unfold wrapper. repeat split.
  - intros Hgiven. apply elem_of_dom in Hgiven.
    rewrite bool_decide_eq_false_2; [done | by intros ?].
  - intros Hmissing context Hambient. apply not_elem_of_dom in Hmissing.
    rewrite bool_decide_eq_true_2 by done. by rewrite Hambient.
  - intros Hnone. rewrite Hnone. cbn. by destruct (bool_decide _).
Qed.

(** A context passed by position is not seen: the ambient context is added
    to the keyword arguments all the same. *)
Lemma wrapper_positional_context (fn : Fn R) ctx given ambient :
  get_context ctx = VContext ambient →
  wrapper R fn "context" ctx [VContext given] ∅
  = fn [VContext given] {[ "context" := VContext ambient ]}.
Proof.
  intros Hambient. unfold wrapper. rewrite Hambient.
  rewrite bool_decide_eq_true_2 by set_solver. done.
Qed.

End ProvideAgentContext.

(** ** Derived identifiers *)

Example md5_empty : hashlib.md5_hexdigest "" = "d41d8cd98f00b204e9800998ecf8427e".
Proof. vm_compute. reflexivity. Qed.

Example md5_abc : hashlib.md5_hexdigest "abc" = "900150983cd24fb0d6963f7d28e17f72".
Proof. vm_compute. reflexivity. Qed.

(** [test_stable_id]: the identifier of [Agent(name="Test Agent")], whose
    instructions are the default ones, is "69dd1abd". *)
Example hash_objects_test_stable_id :
  hash_objects
    (PyTuple [ PyStr "Agent"; PyStr "Test Agent"; PyNone; PyNone;
               PyStr "You are a diligent AI assistant. You complete your tasks efficiently and without error." ])
    8
  = "69dd1abd".
Proof. vm_compute. reflexivity. Qed.

Lemma optional_inj v w : Team.optional v = Team.optional w → v = w.
Proof. destruct v, w; simpl; congruence. Qed.

Lemma member_ids_inj (agents others : list Agent.t) :
  map (fun a => PyStr (Agent.id a)) agents = map (fun a => PyStr (Agent.id a)) others →
  map Agent.id agents = map Agent.id others.
Proof.
  revert others. induction agents as [| a agents IH]; intros [| b others] Heq;
    simpl in *; try done.
  injection Heq as Hid Hrest. f_equal; auto.
Qed.

(** The tuple that is hashed determines the six fields, and conversely. *)
Lemma id_tuple_fields self other :
  Team.id_tuple self = Team.id_tuple other ↔ Team.same_id_fields self other.
Proof.
  unfold Team.id_tuple, Team.same_id_fields. split.
  - intros Heq. injection Heq as Hclass Hname Hdesc Hprompt Hinstr Hagents.
    repeat split; auto using optional_inj, member_ids_inj.
  - intros (-> & -> & -> & -> & -> & Hagents).
    do 7 f_equal. rewrite <- !(map_map Agent.id PyStr). by rewrite Hagents.
Qed.

(** C7, as amended.  Two teams with the same type name, name, description,
    prompt and instructions and the same member identifiers in the same
    order have the same identifier; so teams with different identifiers
    differ in one of these.  A change in one of them or in the order of the
    member identifiers changes the tuple that is hashed. *)
Theorem generate_id_same_fields self other :
  (Team.same_id_fields self other → Team._generate_id self = Team._generate_id other)
  ∧ (Team._generate_id self ≠ Team._generate_id other → ¬ Team.same_id_fields self other)
  ∧ (¬ Team.same_id_fields self other → Team.id_tuple self ≠ Team.id_tuple other).
Proof.
  assert (Team.same_id_fields self other → Team._generate_id self = Team._generate_id other)
    as Hsame.
  { intros Hfields. apply id_tuple_fields in Hfields.
    unfold Team._generate_id. by rewrite Hfields. }
  split; [done |]. split.
  - intros Hdiff Hfields. by apply Hdiff, Hsame.
  - intros Hdiff Htuple. by apply Hdiff, id_tuple_fields.
Qed.

(** C7 as stated fails: two teams that differ in their name, and in nothing
    else, have the same identifier; the eight digits kept of the digest
    collide. *)
Lemma generate_id_collision :
  Team.name Scenario.team_61171 ≠ Team.name Scenario.team_155859
  ∧ ¬ Team.same_id_fields Scenario.team_61171 Scenario.team_155859
  ∧ Team._generate_id Scenario.team_61171 = "8cb2454d"
  ∧ Team._generate_id Scenario.team_155859 = "8cb2454d"
  ∧ Team._generate_id Scenario.team_61171 = Team._generate_id Scenario.team_155859.
Proof.
  assert (Team.name Scenario.team_61171 ≠ Team.name Scenario.team_155859) as Hname
    by discriminate.
  split; [done |]. split; [by intros (_ & ? & _) |].
  repeat split; vm_compute; reflexivity.
Qed.

(** C7, as amended, on a team and the same team later in its rotation. *)
Lemma generate_id_same_fields_witness :
  Team._generate_id Scenario.team
  = Team._generate_id (Team.set_iterations Scenario.team 5).
Proof.
  apply (generate_id_same_fields Scenario.team (Team.set_iterations Scenario.team 5)).
  repeat split.
Defined.

(** ** Examples and witnesses *)

(** The run of the specification: a team of two, no event yet, returns
    [alice] and counts 1; after a tool result of [alice] that does not end
    the turn it returns [alice] again and still counts 1; after one that
    ends the turn it returns [bob] and counts 2. *)
Example alice_and_bob :
  let team1 := Team.set_iterations Scenario.team 1 in
  let team2 := Team.set_iterations Scenario.team 2 in
  let held := Scenario.tool_result_event Scenario.alice false in
  let ended := Scenario.tool_result_event Scenario.alice true in
  Team.get_agent Flow.get_events Scenario.team (Scenario.context [])
  = Ok (Scenario.alice, team1)
  ∧ Team.get_agent Flow.get_events team1 (Scenario.context [held])
    = Ok (Scenario.alice, team1)
  ∧ Team.get_agent Flow.get_events team1 (Scenario.context [held; ended])
    = Ok (Scenario.bob, team2).
Proof. repeat apply conj; vm_compute; reflexivity. Qed.

(** C2 on the team of [alice] and [bob]: one call from counter 0, and two
    calls from counter 1. *)
Lemma get_agent_round_robin_witness :
  Team.get_agent Flow.get_events Scenario.team (Scenario.context [])
  = Ok (Scenario.alice, Team.set_iterations Scenario.team 1)
  ∧ Team.get_agent_each Flow.get_events (Team.set_iterations Scenario.team 1)
      [Scenario.context []; Scenario.context [Scenario.agent_message_event Scenario.bob]]
    = Ok ([Scenario.bob; Scenario.alice], Team.set_iterations Scenario.team 3).
Proof.
  split.
  - destruct (get_agent_round_robin Flow.get_events Scenario.team) as [Hone _];
      [discriminate |].
    destruct (Hone (Scenario.context []) I) as (agent & Hlookup & Hget).
    injection Hlookup as <-. exact Hget.
  - destruct (get_agent_round_robin Flow.get_events (Team.set_iterations Scenario.team 1))
      as [_ Hall]; [discriminate |].
    destruct (Hall [Scenario.context [];
                    Scenario.context [Scenario.agent_message_event Scenario.bob]])
      as [Hrun _]; [reflexivity | | exact Hrun].
    apply Forall_cons_2; [exact I |].
    apply Forall_cons_2; [left; discriminate | apply Forall_nil_2].
Defined.

(** C3 after a tool result that ends the turn: the member at index 1. *)
Lemma get_agent_rotates_otherwise_witness :
  ∃ agent,
    [Scenario.alice; Scenario.bob] !! 1%nat = Some agent
    ∧ Team.get_agent Flow.get_events (Team.set_iterations Scenario.team 1)
        (Scenario.context [Scenario.tool_result_event Scenario.alice false;
                           Scenario.tool_result_event Scenario.alice true])
      = Ok (agent, Team.set_iterations Scenario.team 2)
    ∧ Team.get_agent Flow.get_events (Team.set_iterations Scenario.team 1)
        (Scenario.context [Scenario.tool_result_event Scenario.alice false;
                           Scenario.tool_result_event Scenario.alice true])
      = Team.rotation (Team.set_iterations Scenario.team 1).
Proof.
  apply (get_agent_rotates_otherwise Flow.get_events (Team.set_iterations Scenario.team 1)
           (Scenario.context [Scenario.tool_result_event Scenario.alice false;
                              Scenario.tool_result_event Scenario.alice true])).
  - discriminate.
  - left. exists (Scenario.tool_result_event Scenario.alice true), [].
    split; [reflexivity |]. left. split; [reflexivity |].
    exists (ToolResult.mk true). split; reflexivity.
Defined.

(** C6 on the constructor's arguments, and on a call of [get_agent] at
    counter 7. *)
Lemma team_is_never_empty_witness :
  Team.create Team.Omitted Team.Omitted None None None = Err (ValidationError "Field required")
  ∧ Team.create (Team.Passed (Some [])) Team.Omitted None None None
    = Err (ValidationError "Value error, A team must have at least one agent.")
  ∧ Team.create (Team.Passed (Some [Scenario.alice; Scenario.bob])) Team.Omitted None None None
    = Ok Scenario.team
  ∧ ∃ agent self',
      Team.get_agent Flow.get_events (Team.set_iterations Scenario.team 7)
        (Scenario.context [Scenario.tool_result_event Scenario.alice false])
      = Ok (agent, self')
      ∧ agent ∈ Team.agents Scenario.team
      ∧ Team.agents self' = Team.agents Scenario.team.
Proof.
  repeat split.
  destruct (team_is_never_empty Flow.get_events
              (Team.Passed (Some [Scenario.alice; Scenario.bob])) Team.Omitted None None None)
    as (_ & _ & Hexists).
  destruct (Hexists Scenario.team eq_refl) as [_ Hcalls].
  destruct (Hcalls 7 (Scenario.context [Scenario.tool_result_event Scenario.alice false]))
    as (_ & _ & _ & Hget).
  apply Hget. repeat constructor. eexists. reflexivity.
Defined.

(** C4 on an event of [carol] that asks to be persisted: two handler calls,
    then the write to the log, all with the enriched event. *)
Lemma handle_event_default_witness :
  AgentContext.calls
    (AgentContext.after
       (AgentContext.handle_event Scenario.add_tasks Scenario.add_agents
          (Scenario.new_event true) None)
       Scenario.state)
  = [ Handle (Handler.mk "print")
        (Event.mk "agent-message" Scenario.carol None true (Some "thread-1")
                  ["7a5c0001"] ["a11ce001"; "b0b00002"]);
      Handle (Handler.mk "record")
        (Event.mk "agent-message" Scenario.carol None true (Some "thread-1")
                  ["7a5c0001"] ["a11ce001"; "b0b00002"]);
      AddEvents
        [Event.mk "agent-message" Scenario.carol None true (Some "thread-1")
                  ["7a5c0001"] ["a11ce001"; "b0b00002"]] ].
Proof.
  destruct (handle_event_default Scenario.add_tasks Scenario.add_agents
              (Scenario.new_event true) Scenario.state)
    as (_ & _ & Hcalls & _).
  exact Hcalls.
Defined.

(** C8 on [carol], who is new, and on [bob], who is registered. *)
Lemma add_agent_idempotent_witness :
  AgentContext.participants
    (AgentContext.after (AgentContext.add_agent Scenario.carol)
       (AgentContext.after (AgentContext.add_agent Scenario.carol) Scenario.state))
  = AgentContext.participants
      (AgentContext.after (AgentContext.add_agent Scenario.carol) Scenario.state)
  ∧ AgentContext.after (AgentContext.add_agent Scenario.bob) Scenario.state = Scenario.state.
Proof.
  destruct (add_agent_idempotent Scenario.carol Scenario.state) as (_ & Htwice & _).
  destruct (add_agent_idempotent Scenario.bob Scenario.state) as (_ & _ & Hregistered).
  split; [exact Htwice |]. apply Hregistered. vm_compute. repeat constructor.
Defined.

Example add_agent_carol :
  AgentContext.participants
    (AgentContext.after (AgentContext.add_agent Scenario.carol) Scenario.state)
  = [Scenario.alice; Scenario.bob; Scenario.carol].
Proof. vm_compute. reflexivity. Qed.

(** C5 with [alice] and [bob] registered and [carol] as the target. *)
Lemma compile_prompt_order_witness :
  (AgentContext.compile_prompt Scenario.agent_prompt Scenario.flow_prompt
     Scenario.no_prompt Scenario.no_prompt Scenario.instructions_prompt
     Scenario.carol Scenario.state).1
  = String.concat AgentContext.blank_line ["Carol"; "Bob"; "Alice"; "# Flow"; "Be brief."].
Proof.
  destruct (compile_prompt_order Scenario.agent_prompt Scenario.flow_prompt
              Scenario.no_prompt Scenario.no_prompt Scenario.instructions_prompt
              Scenario.carol Scenario.state)
    as [_ Hthree]; [by eexists |].
  rewrite (Hthree Scenario.alice Scenario.bob); [reflexivity | reflexivity | |]; discriminate.
Defined.

(** C10 on the same call: the context and its participants are as before. *)
Lemma compile_prompt_frame_witness :
  AgentContext.self
    (AgentContext.after
       (AgentContext.compile_prompt Scenario.agent_prompt Scenario.flow_prompt
          Scenario.no_prompt Scenario.no_prompt Scenario.instructions_prompt Scenario.carol)
       Scenario.state)
  = AgentContext.self Scenario.state
  ∧ AgentContext.participants
      (AgentContext.after
         (AgentContext.compile_prompt Scenario.agent_prompt Scenario.flow_prompt
            Scenario.no_prompt Scenario.no_prompt Scenario.instructions_prompt Scenario.carol)
         Scenario.state)
    = [Scenario.alice; Scenario.bob].
Proof.
  destruct (compile_prompt_frame Scenario.agent_prompt Scenario.flow_prompt
              Scenario.no_prompt Scenario.no_prompt Scenario.instructions_prompt
              Scenario.carol Scenario.state)
    as (Hself & Hparticipants & _); [by eexists |].
  split; [exact Hself | exact Hparticipants].
Defined.

(** C9 on a function that returns its arguments: the ambient context is
    inserted; a keyword given by the caller is kept; without ambient context
    nothing is inserted. *)
Lemma provide_agent_context_injects_witness :
  wrapper _ Scenario.echo "context"
    {[ "agent_context" := VContext (Scenario.context []) ]} [VInt 1] ∅
  = ([VInt 1], {[ "context" := VContext (Scenario.context []) ]})
  ∧ wrapper _ Scenario.echo "context"
      {[ "agent_context" := VContext (Scenario.context []) ]} [] {[ "context" := VNone ]}
    = ([], {[ "context" := VNone ]})
  ∧ wrapper _ Scenario.echo "context" ∅ [VInt 1] ∅ = ([VInt 1], ∅).
Proof.
  pose proof (fun ctx args kwargs =>
    provide_agent_context_injects _ Scenario.echo None
      (wrapper _ Scenario.echo "context") ctx args kwargs (or_introl eq_refl)) as Hw.
  split; [| split].
  - destruct (Hw {[ "agent_context" := VContext (Scenario.context []) ]} [VInt 1] ∅)
      as (name & -> & _ & Hinject & _).
    by apply Hinject.
  - destruct (Hw {[ "agent_context" := VContext (Scenario.context []) ]} []
                 {[ "context" := VNone ]})
      as (name & -> & Hgiven & _).
    apply Hgiven. by eexists.
  - destruct (Hw ∅ [VInt 1] ∅) as (name & -> & _ & _ & Hnone).
    by apply Hnone.
Defined.

(** * Further properties *)

(** ** Turn selection: counter, interleaved turns, edge cases *)

Section TurnSelectionFurther.

Variable get_events :
  Flow.t -> list Agent.t -> list Task.t -> list string -> option Z -> list Event.t.

Local Abbreviation get_agent := (Team.get_agent get_events).
Local Abbreviation get_agent_each := (Team.get_agent_each get_events).
Local Abbreviation last_agent_event := (Team.last_agent_event get_events).

(** A rotation step that succeeds was made on a team with members. *)
Lemma rotation_inv self agent self' :
  Team.rotation self = Ok (agent, self') →
  Team.agents self ≠ []
  ∧ Team.agents self
      !! Z.to_nat (Team._iterations self mod Z.of_nat (length (Team.agents self)))
    = Some agent
  ∧ self' = Team.set_iterations self (Team._iterations self + 1).
Proof.
  unfold Team.rotation.
  destruct (Z.eqb_spec (Z.of_nat (length (Team.agents self))) 0) as [| Hlen]; [done |].
  destruct (Team.agents self !! _) as [a |] eqn:Hlookup; [| done].
  intros [= <- <-]. repeat split. intros Hnil. rewrite Hnil in Hlen. by apply Hlen.
Qed.

(** A call that succeeds either found the turn held, and gave the event's
    agent and the team as it was, or made a rotation step. *)
Lemma get_agent_inv self context agent self' :
  get_agent self context = Ok (agent, self') →
  (Team.held (last_agent_event self context) = true
   ∧ self' = self
   ∧ ∃ e rest, last_agent_event self context = e :: rest ∧ agent = Event.agent e)
  ∨ (Team.held (last_agent_event self context) = false
     ∧ Team.rotation self = Ok (agent, self')).
Proof.
  unfold Team.get_agent, Team.last_agent_event, Team.held.
  destruct (get_events _ _ _ _ _) as [| e rest]; [by right |].
  destruct (String.eqb _ _); [| by right].
  destruct (Event.tool_result e) as [tool_result |]; [| done].
  destruct (ToolResult.end_turn tool_result); simpl.
  - by right.
  - intros [= <- <-]. left. repeat split. by exists e, rest.
Qed.

Lemma set_iterations_same self : Team.set_iterations self (Team._iterations self) = self.
Proof. by destruct self. Qed.

(** The query of a team does not depend on its counter. *)
Lemma last_agent_event_counter self v context :
  last_agent_event (Team.set_iterations self v) context = last_agent_event self context.
Proof. reflexivity. Qed.

(** X1.  A call of [get_agent] that returns changes nothing of the team but
    the counter, which stays where it is when the turn is held and moves by
    one otherwise. *)
Theorem get_agent_moves_counter_only self context agent self' :
  get_agent self context = Ok (agent, self') →
  self' = Team.set_iterations self
            (Team._iterations self
             + (if Team.held (last_agent_event self context) then 0 else 1))
  ∧ Team.agents self' = Team.agents self
  ∧ Team._iterations self ≤ Team._iterations self' ≤ Team._iterations self + 1.
Proof.
  intros Hget.
  destruct (get_agent_inv _ _ _ _ Hget) as [(-> & -> & _) | (-> & Hrot)].
  - rewrite Z.add_0_r, set_iterations_same. repeat split; lia.
  - apply rotation_inv in Hrot as (_ & _ & ->). simpl. repeat split; lia.
Qed.

(** The contexts of a list in which the turn is not held. *)
Local Abbreviation rotating self contexts :=
  (filter (fun context => Team.held (last_agent_event self context) = false) contexts).

(** A run of calls that returns: one agent per call; the counter has moved
    by the number of calls that rotated; and a call that rotated picked the
    member at the counter it found, which the held turns before it have not
    moved. *)
Lemma get_agent_each_inv contexts : ∀ self chosen self',
  get_agent_each self contexts = Ok (chosen, self') →
  length chosen = length contexts
  ∧ self' = Team.set_iterations self
              (Team._iterations self + Z.of_nat (length (rotating self contexts)))
  ∧ ∀ i context,
      contexts !! i = Some context →
      Team.held (last_agent_event self context) = false →
      chosen !! i
      = Team.agents self
          !! Z.to_nat ((Team._iterations self
                        + Z.of_nat (length (rotating self (take i contexts))))
                       mod Z.of_nat (length (Team.agents self))).
Proof.
  induction contexts as [| context contexts IH]; intros self chosen self' Hrun.
  - injection Hrun as <- <-. cbn. rewrite Z.add_0_r, set_iterations_same.
    repeat split. intros i context Hi. by rewrite lookup_nil in Hi.
  - cbn [Team.get_agent_each] in Hrun.
    destruct (get_agent self context) as [[agent self1] |] eqn:Hget; [| done].
    cbn in Hrun.
    destruct (get_agent_each self1 contexts) as [[chosen1 self2] |] eqn:Heach; [| done].
    cbn in Hrun. injection Hrun as <- <-.
    destruct (IH _ _ _ Heach) as (Hlen & Hself & Hnth).
    destruct (get_agent_inv _ _ _ _ Hget) as [(Hheld & -> & _) | (Hheld & Hrot)].
    + rewrite filter_cons_False by (by rewrite Hheld).
      split; [simpl; by rewrite Hlen |]. split; [done |].
      intros [| i] context' Hi Hrotates; simpl in Hi.
      * injection Hi as <-. congruence.
      * cbn [take]. rewrite filter_cons_False by (by rewrite Hheld).
        simpl lookup at 1. exact (Hnth i context' Hi Hrotates).
    + apply rotation_inv in Hrot as (_ & Hpick & ->).
      rewrite filter_cons_True by done.
      split; [simpl; by rewrite Hlen |]. split.
      * rewrite Hself, set_iterations_twice. cbn [Team._iterations Team.set_iterations].
        f_equal. rewrite length_cons, Nat2Z.inj_succ.
        change (rotating (Team.set_iterations self (Team._iterations self + 1)) contexts)
          with (rotating self contexts).
        lia.
      * intros [| i] context' Hi Hrotates; simpl in Hi.
        -- injection Hi as <-. cbn. by rewrite Z.add_0_r.
        -- cbn [take]. rewrite filter_cons_True by done.
           simpl lookup at 1. rewrite (Hnth i context' Hi Hrotates).
           cbn [Team._iterations Team.set_iterations Team.agents].
           rewrite length_cons, Nat2Z.inj_succ.
           change (rotating (Team.set_iterations self (Team._iterations self + 1))
                     (take i contexts))
             with (rotating self (take i contexts)).
           do 3 f_equal. lia.
Qed.

(** X2.  In a run of calls that returns, held turns do not use up a place in
    the rotation: the counter ends moved by the number of calls that
    rotated, and the call at position [i], if it rotated, returned the
    member at index [(c + r) mod len], [r] being the number of calls before
    it that rotated. *)
Theorem get_agent_each_skips_held self contexts chosen self' :
  get_agent_each self contexts = Ok (chosen, self') →
  length chosen = length contexts
  ∧ Team._iterations self'
    = Team._iterations self + Z.of_nat (length (rotating self contexts))
  ∧ Team.agents self' = Team.agents self
  ∧ ∀ i context,
      contexts !! i = Some context →
      Team.held (last_agent_event self context) = false →
      chosen !! i
      = Team.agents self
          !! Z.to_nat ((Team._iterations self
                        + Z.of_nat (length (rotating self (take i contexts))))
                       mod Z.of_nat (length (Team.agents self))).
Proof.
  intros Hrun. destruct (get_agent_each_inv _ _ _ _ Hrun) as (Hlen & -> & Hnth).
  by repeat split.
Qed.

(** X3.  On a team with members the rotation step succeeds for every
    integer counter, negative ones included, and counters that differ by a
    multiple of the number of members pick the same member. *)
Theorem rotation_periodic self k :
  Team.agents self ≠ [] →
  ∃ agent,
    agent ∈ Team.agents self
    ∧ Team.rotation self
      = Ok (agent, Team.set_iterations self (Team._iterations self + 1))
    ∧ Team.rotation
        (Team.set_iterations self
           (Team._iterations self + k * Z.of_nat (length (Team.agents self))))
      = Ok (agent,
            Team.set_iterations self
              (Team._iterations self + k * Z.of_nat (length (Team.agents self)) + 1)).
Proof.
  intros Hne.
  destruct (rotation_spec self Hne) as (agent & Hlookup & Hrot).
  destruct (rotation_spec
              (Team.set_iterations self
                 (Team._iterations self + k * Z.of_nat (length (Team.agents self)))) Hne)
    as (agent' & Hlookup' & Hrot').
  cbn [Team._iterations Team.set_iterations Team.agents] in Hlookup', Hrot'.
  rewrite Z_mod_plus_full, Hlookup in Hlookup'. injection Hlookup' as <-.
  exists agent. split; [by eapply list_elem_of_lookup_2 |]. by split.
Qed.

(** X4.  On a team without members, which the constructor refuses but the
    record allows, a call that has to rotate raises [ZeroDivisionError]; a
    call that finds the turn held still returns the agent of the event. *)
Theorem get_agent_without_members self context :
  Team.agents self = [] →
  (Team.yields_turn (last_agent_event self context) →
   get_agent self context = Err ZeroDivisionError)
  ∧ (Team.holds_turn (last_agent_event self context) →
     ∃ e rest, last_agent_event self context = e :: rest
               ∧ get_agent self context = Ok (Event.agent e, self)).
Proof.
  intros Hnone. split.
  - intros Hyield. rewrite (get_agent_yields _ _ _ Hyield).
    unfold Team.rotation. by rewrite Hnone.
  - apply get_agent_holds.
Qed.

(** X5.  A team just constructed starts its rotation at the first member it
    was given: the first call that rotates returns it and counts 1. *)
Theorem new_team_starts_with_first_member a l name description prompt instructions
    context :
  ∃ self,
    Team.create (Team.Passed (Some (a :: l))) name description prompt instructions = Ok self
    ∧ Team._iterations self = 0
    ∧ (Team.yields_turn (last_agent_event self context) →
       get_agent self context = Ok (a, Team.set_iterations self 1)).
Proof.
  eexists. split; [reflexivity |]. split; [reflexivity |].
  intros Hyield. rewrite (get_agent_yields _ _ _ Hyield).
  unfold Team.rotation. cbn [Team.agents Team._iterations length].
  rewrite Zmod_0_l. destruct (Z.eqb_spec (Z.of_nat (S (length l))) 0); [lia | done].
Qed.

(** X6.  The derived identifier of a team does not change as the team takes
    turns: a call of [get_agent] that returns leaves the tuple that is
    hashed, and so the identifier, as it was. *)
Theorem get_agent_keeps_id self context agent self' :
  get_agent self context = Ok (agent, self') →
  Team.id_tuple self' = Team.id_tuple self
  ∧ Team._generate_id self' = Team._generate_id self.
Proof.
  intros Hget.
  assert (Team.id_tuple self' = Team.id_tuple self) as Htuple.
  { destruct (get_agent_inv _ _ _ _ Hget) as [(_ & -> & _) | (_ & Hrot)]; [done |].
    by apply rotation_inv in Hrot as (_ & _ & ->). }
  split; [done |]. unfold Team._generate_id. by rewrite Htuple.
Qed.

End TurnSelectionFurther.

(** ** Derived identifiers: their format *)

Lemma length_le_bytes count : ∀ x, length (hashlib.le_bytes count x) = count.
Proof. induction count as [| count IH]; intros x; simpl; [done | by rewrite IH]. Qed.

Lemma length_digest message : length (hashlib.digest message) = 16%nat.
Proof.
  unfold hashlib.digest. destruct (hashlib.blocks _ _ _) as [[[a b] c] d].
  by rewrite !length_app, !length_le_bytes.
Qed.

Lemma hex_digit_is_hex n :
  json.hex_digit n ∈ list_ascii_of_string "0123456789abcdef".
Proof.
  unfold json.hex_digit. apply list_elem_of_In.
  destruct (nth_in_or_default (N.to_nat n) (list_ascii_of_string "0123456789abcdef")
              "0"%char) as [Hin | ->]; [done |].
  simpl. tauto.
Qed.

Lemma hex_chars bytes :
  length (list_ascii_of_string (hashlib.hex bytes)) = (2 * length bytes)%nat
  ∧ Forall (fun c => c ∈ list_ascii_of_string "0123456789abcdef")
           (list_ascii_of_string (hashlib.hex bytes)).
Proof.
  unfold hashlib.hex. rewrite list_ascii_of_string_of_list_ascii.
  induction bytes as [| b bytes [IHlen IHhex]]; [by split |].
  cbn [flat_map app length]. split; [rewrite IHlen; lia |].
  repeat apply Forall_cons_2; auto using hex_digit_is_hex.
Qed.

(** The first [n] characters of a text. *)
Lemma substring_prefix n : ∀ s,
  list_ascii_of_string (String.substring 0 n s) = take n (list_ascii_of_string s).
Proof.
  induction n as [| n IH]; intros [| c s]; simpl; try done.
  by rewrite IH.
Qed.

(** X7.  The derived identifier of a team is a text of eight characters,
    each a digit or a letter from [a] to [f]. *)
Theorem generate_id_format self :
  String.length (Team._generate_id self) = 8%nat
  ∧ Forall (fun c => c ∈ list_ascii_of_string "0123456789abcdef")
           (list_ascii_of_string (Team._generate_id self)).
Proof.
  unfold Team._generate_id, hash_objects, hashlib.md5_hexdigest.
  destruct (hex_chars (hashlib.digest
              (map N_of_ascii (list_ascii_of_string (json.dumps (Team.id_tuple self))))))
    as [Hlen Hhex].
  rewrite length_digest in Hlen.
  rewrite <- (string_of_list_ascii_of_string (String.substring _ _ _)).
  rewrite substring_prefix. split.
  - assert (∀ l, String.length (string_of_list_ascii l) = length l) as Hlength.
    { induction l as [| c l IH]; simpl; [done | by rewrite IH]. }
    rewrite Hlength, length_take. lia.
  - rewrite list_ascii_of_string_of_list_ascii. by apply Forall_take.
Qed.

(** ** The run context: registration, events, messages *)

Section ContextFurther.

Import AgentContext.

(** Unfolds one layer of a method: the sequencing and the accesses to the
    context object. *)
Ltac run_method :=
  unfold mbind, M_bind, mret, M_ret, get_self, put_self, read_list.

(** [add_agent] touches the reference to the participants only. *)
Lemma add_agent_fields agent s :
  flow (self (after (add_agent agent) s)) = flow (self s)
  ∧ tasks (self (after (add_agent agent) s)) = tasks (self s)
  ∧ tools (self (after (add_agent agent) s)) = tools (self s)
  ∧ handlers (self (after (add_agent agent) s)) = handlers (self s)
  ∧ instructions (self (after (add_agent agent) s)) = instructions (self s)
  ∧ calls (after (add_agent agent) s) = calls s.
Proof.
  unfold after, add_agent. run_method. by destruct (bool_decide _).
Qed.

(** One registration: the participants before are kept, in their order, at
    the front; the agent is a participant after; no list object changes. *)
Lemma add_agent_step agent s :
  participants s `prefix_of` participants (after (add_agent agent) s)
  ∧ (NoDup (participants s) → NoDup (participants (after (add_agent agent) s)))
  ∧ (∀ a, a ∈ participants (after (add_agent agent) s) ↔ a ∈ participants s ∨ a = agent)
  ∧ lists s ⊆ lists (after (add_agent agent) s).
Proof.
  destruct (decide (agent ∈ participants s)) as [Hin | Hnotin].
  - unfold after. rewrite add_agent_registered by done. cbn [snd].
    repeat split; try done.
    + by left.
    + by intros [? | ->].
  - destruct (add_agent_new agent s Hnotin) as (-> & Hstore & _).
    repeat split; try done.
    + by apply prefix_app_r.
    + intros Hnodup. apply NoDup_app. repeat split; [done | | apply NoDup_singleton].
      intros a Ha ->%list_elem_of_singleton. done.
    + rewrite elem_of_app, list_elem_of_singleton. tauto.
    + rewrite elem_of_app, list_elem_of_singleton. tauto.
Qed.

(** X8.  Registering a new agent puts it last and makes a new list: the
    list object that held the participants still holds them, so a second
    reference to it, such as the one [compile_prompt] takes, is not
    affected. *)
Theorem add_agent_makes_new_list agent s :
  agent ∉ participants s →
  is_Some (lists s !! agents (self s)) →
  participants (after (add_agent agent) s) = participants s ++ [agent]
  ∧ agents (self (after (add_agent agent) s)) ≠ agents (self s)
  ∧ lists (after (add_agent agent) s) !! agents (self s) = lists s !! agents (self s)
  ∧ lists s ⊆ lists (after (add_agent agent) s).
Proof.
  intros Hnotin Hexists.
  destruct (add_agent_new agent s Hnotin) as (Hlast & Hstore & _).
  split; [done |]. split; [| split; [| done]].
  - intros Hsame. destruct Hexists as [old Hold].
    assert (participants s = old) as Hbefore by (unfold participants; by rewrite Hold).
    assert (participants (after (add_agent agent) s) = old) as Hafter.
    { unfold participants. rewrite Hsame. by rewrite (lookup_weaken _ _ _ _ Hold Hstore). }
    rewrite Hafter, Hbefore in Hlast.
    apply (f_equal length) in Hlast. rewrite length_app in Hlast. simpl in Hlast. lia.
  - destruct Hexists as [old Hold]. by rewrite (lookup_weaken _ _ _ _ Hold Hstore).
Qed.

(** X9.  Registering the agents of a list in turn, as a team and the member
    it delegates to do: the participants before stay at the front in their
    order; the participants after are those before and the agents of the
    list; none is there twice if none was; no list object changes, and no
    collaborator is called. *)
Theorem add_agent_each agents : ∀ s,
  participants s `prefix_of` participants (after (for_each agents add_agent) s)
  ∧ (NoDup (participants s) → NoDup (participants (after (for_each agents add_agent) s)))
  ∧ (∀ a, a ∈ participants (after (for_each agents add_agent) s)
          ↔ a ∈ participants s ∨ a ∈ agents)
  ∧ lists s ⊆ lists (after (for_each agents add_agent) s)
  ∧ calls (after (for_each agents add_agent) s) = calls s.
Proof.
  induction agents as [| agent agents IH]; intros s.
  - unfold after. cbn. repeat split; try done.
    + by left.
    + intros [? | Hnil]; [done | by apply elem_of_nil in Hnil].
  - assert (after (for_each (agent :: agents) add_agent) s
            = after (for_each agents add_agent) (after (add_agent agent) s)) as ->.
    { unfold after. cbn [for_each]. run_method. by destruct (add_agent agent s). }
    destruct (add_agent_step agent s) as (Hprefix & Hnodup & Hmem & Hstore).
    destruct (add_agent_fields agent s) as (_ & _ & _ & _ & _ & Hcalls).
    destruct (IH (after (add_agent agent) s)) as (Hprefix' & Hnodup' & Hmem' & Hstore' & Hcalls').
    repeat split.
    + by etrans.
    + auto.
    + rewrite Hmem', Hmem, elem_of_cons. tauto.
    + rewrite Hmem', Hmem, elem_of_cons. tauto.
    + by etrans.
    + by rewrite Hcalls'.
Qed.

Section HandleEventFurther.

Variable Event_add_tasks : Event.t → list Task.t → Event.t.
Variable Event_add_agents : Event.t → list Agent.t → Event.t.

Local Abbreviation handle_event := (handle_event Event_add_tasks Event_add_agents).
Local Abbreviation enriched := (enriched Event_add_tasks Event_add_agents).

(** The calls [handle_event] makes for an event, under a persist
    decision. *)
Local Abbreviation emitted s event decision :=
  (map (fun handler => Handle handler (enriched s event)) (handlers (self s))
   ++ (if decision then [AddEvents [enriched s event]] else [])).

(** [handle_event] changes nothing that the enrichment of a later event
    reads: the thread identifier, the tasks, the participants. *)
Lemma enriched_after_handle_event event persist other s :
  enriched (after (handle_event event persist) s) other = enriched s other
  ∧ handlers (self (after (handle_event event persist) s)) = handlers (self s).
Proof.
  unfold after. rewrite handle_event_decided. cbn [snd].
  unfold AgentContext.enriched, participants. cbn.
  by destruct (default (Event.persist event) persist).
Qed.

(** X10.  A persist flag given by the caller decides alone: with [True] the
    event is added to the log, with [False] it is not, whatever the event's
    own preference; the handlers are called in both cases. *)
Theorem handle_event_explicit_flag event flag s :
  (handle_event event (Some flag) s).1 = enriched s event
  ∧ calls (after (handle_event event (Some flag)) s) = calls s ++ emitted s event flag
  ∧ Flow.events (flow (self (after (handle_event event (Some flag)) s)))
    = Flow.events (flow (self s)) ++ (if flag then [enriched s event] else [])
  ∧ participants (after (handle_event event (Some flag)) s) = participants s.
Proof.
  unfold after. rewrite handle_event_decided. cbn.
  repeat split; destruct flag; cbn; try done. by rewrite app_nil_r.
Qed.

(** X11.  Two events handled one after the other: the calls of the first
    come before those of the second, the log receives them in that order,
    and the second is enriched with the same thread identifier, tasks and
    participants as the first. *)
Theorem handle_event_twice first persist1 second persist2 s :
  calls (after (handle_event second persist2) (after (handle_event first persist1) s))
  = calls s
    ++ emitted s first (default (Event.persist first) persist1)
    ++ emitted s second (default (Event.persist second) persist2)
  ∧ Flow.events
      (flow (self (after (handle_event second persist2)
                     (after (handle_event first persist1) s))))
    = Flow.events (flow (self s))
      ++ (if default (Event.persist first) persist1 then [enriched s first] else [])
      ++ (if default (Event.persist second) persist2 then [enriched s second] else [])
  ∧ (handle_event second persist2 (after (handle_event first persist1) s)).1
    = enriched s second.
Proof.
  destruct (enriched_after_handle_event first persist1 second s) as [Henriched Hhandlers].
  unfold after at 1 3. rewrite !(handle_event_decided _ _ second). cbn [fst snd calls self].
  rewrite Henriched, Hhandlers.
  unfold after. rewrite !handle_event_decided. cbn [snd calls self].
  split; [by rewrite <- !app_assoc |]. split; [| done].
  destruct (default (Event.persist first) persist1),
           (default (Event.persist second) persist2); cbn;
    rewrite ?app_nil_r, <- ?app_assoc; done.
Qed.

(** X12.  Handlers are not deduplicated: after [add_handlers], an event is
    forwarded to the handlers registered before, then to the new ones in
    the order given, and a handler that is there twice is called twice.
    Two additions amount to one addition of the concatenation. *)
Theorem add_handlers_then_handle_event new event persist s :
  calls (after (handle_event event persist) (after (add_handlers new) s))
  = calls s
    ++ map (fun handler => Handle handler (enriched s event)) (handlers (self s) ++ new)
    ++ (if default (Event.persist event) persist then [AddEvents [enriched s event]] else [])
  ∧ (∀ more, after (add_handlers more) (after (add_handlers new) s)
             = after (add_handlers (new ++ more)) s).
Proof.
  split.
  - unfold after at 1. rewrite handle_event_decided. cbn [snd calls].
    unfold after, add_handlers. run_method. cbn. done.
  - intros more. unfold after, add_handlers, set_handlers. run_method. cbn.
    by rewrite <- app_assoc.
Qed.

End HandleEventFurther.

Section AddToLists.

Variable as_tools : list Tool.t → list Tool.t.

Local Abbreviation add_tools := (add_tools as_tools).

(** X13.  The registries of a context are independent: handlers, tools and
    instructions can be added in any order, and before or after an agent is
    registered, with the same result.  [add_handlers] and
    [add_instructions] put the new entries after those already there;
    [add_tools] assigns what the validator of the field makes of the old
    tools followed by the new ones: [as_tools] of them, or the empty list as
    it is. *)
Theorem add_to_lists_commute new_handlers new_tools new_instructions agent s :
  after (add_tools new_tools) (after (add_handlers new_handlers) s)
  = after (add_handlers new_handlers) (after (add_tools new_tools) s)
  ∧ after (add_instructions new_instructions) (after (add_handlers new_handlers) s)
    = after (add_handlers new_handlers) (after (add_instructions new_instructions) s)
  ∧ after (add_instructions new_instructions) (after (add_tools new_tools) s)
    = after (add_tools new_tools) (after (add_instructions new_instructions) s)
  ∧ after (add_agent agent) (after (add_handlers new_handlers) s)
    = after (add_handlers new_handlers) (after (add_agent agent) s)
  ∧ after (add_agent agent) (after (add_tools new_tools) s)
    = after (add_tools new_tools) (after (add_agent agent) s)
  ∧ after (add_agent agent) (after (add_instructions new_instructions) s)
    = after (add_instructions new_instructions) (after (add_agent agent) s)
  ∧ handlers (self (after (add_handlers new_handlers) s))
    = handlers (self s) ++ new_handlers
  ∧ instructions (self (after (add_instructions new_instructions) s))
    = instructions (self s) ++ new_instructions
  ∧ tools (self (after (add_tools new_tools) s))
    = _validate_tools as_tools (tools (self s) ++ new_tools)
  ∧ (tools (self s) ++ new_tools = [] → tools (self (after (add_tools new_tools) s)) = [])
  ∧ (tools (self s) ++ new_tools ≠ [] →
     tools (self (after (add_tools new_tools) s)) = as_tools (tools (self s) ++ new_tools)).
Proof.
  unfold after, add_handlers, AgentContext.add_tools, add_instructions, add_agent.
  run_method. cbn.
  split; [done |]. split; [done |]. split; [done |].
  split; [by destruct (bool_decide _) |].
  split; [by destruct (bool_decide _) |].
  split; [by destruct (bool_decide _) |].
  split; [done |]. split; [done |]. split; [done |]. split.
  - by intros ->.
  - intros Hne. by destruct (tools (self s) ++ new_tools).
Qed.

End AddToLists.

Section CompileMessages.

Variable Flow_get_events :
  Flow.t → option (list Agent.t) → option (list Task.t) → option (list string)
  → option Z → list Event.t.
Variable LLMRules : Type.
Variable BaseMessage : Type.
Variable Agent_get_llm_rules : Agent.t → LLMRules.
Variable MessageCompiler_compile_to_messages :
  list Event.t → LLMRules → string → Agent.t → list BaseMessage.
Variable Agent_get_prompt : Agent.t → t → list Agent.t → string.
Variable Flow_get_prompt : Flow.t → t → list Agent.t → string.
Variable TasksTemplate_render : list Task.t → t → list Agent.t → string.
Variable ToolTemplate_render : list Tool.t → t → list Agent.t → string.
Variable InstructionsTemplate_render : list string → t → list Agent.t → string.

Local Abbreviation get_events := (get_events Flow_get_events).
Local Abbreviation compile_prompt :=
  (compile_prompt Agent_get_prompt Flow_get_prompt TasksTemplate_render
     ToolTemplate_render InstructionsTemplate_render).
Local Abbreviation compile_messages :=
  (compile_messages Flow_get_events LLMRules BaseMessage Agent_get_llm_rules
     MessageCompiler_compile_to_messages Agent_get_prompt Flow_get_prompt
     TasksTemplate_render ToolTemplate_render InstructionsTemplate_render).

(** X14.  [get_events] asks the flow for at most [limit] events and for 100
    when no limit is given; a limit of 0 counts as none given, so it asks
    for 100 as well.  It asks with no filter on agents, tasks or kinds, and
    changes nothing. *)
Theorem get_events_default_limit limit s :
  get_events None s = (Flow_get_events (flow (self s)) None None None (Some 100), s)
  ∧ get_events (Some 0) s = get_events None s
  ∧ (limit ≠ 0 →
     get_events (Some limit) s
     = (Flow_get_events (flow (self s)) None None None (Some limit), s)).
Proof.
  unfold AgentContext.get_events. run_method. repeat split.
  intros Hlimit. by destruct limit.
Qed.

(** X15.  [compile_messages] hands the message compiler the last 100 events
    of the flow, the rules of the agent's model and the prompt that
    [compile_prompt] gives for the agent; like [compile_prompt] it leaves
    the context, its participants, the lists of the store and the calls as
    they were. *)
Theorem compile_messages_uses_compile_prompt agent s :
  is_Some (lists s !! agents (self s)) →
  (compile_messages agent s).1
  = MessageCompiler_compile_to_messages
      (Flow_get_events (flow (self s)) None None None (Some 100))
      (Agent_get_llm_rules agent)
      (compile_prompt agent s).1
      agent
  ∧ self (after (compile_messages agent) s) = self s
  ∧ participants (after (compile_messages agent) s) = participants s
  ∧ lists s ⊆ lists (after (compile_messages agent) s)
  ∧ calls (after (compile_messages agent) s) = calls s.
Proof.
  intros Hexists.
  assert (compile_messages agent s
          = (MessageCompiler_compile_to_messages
               (Flow_get_events (flow (self s)) None None None (Some 100))
               (Agent_get_llm_rules agent) (compile_prompt agent s).1 agent,
             (compile_prompt agent s).2)) as Hrun.
  { unfold AgentContext.compile_messages, AgentContext.get_events.
    unfold mbind at 1, M_bind at 1. unfold mbind at 1, M_bind at 1.
    unfold get_self at 1, mret at 1, M_ret at 1. unfold mbind at 1, M_bind at 1.
    by destruct (compile_prompt agent s). }
  unfold after. rewrite Hrun. cbn [fst snd]. split; [done |].
  rewrite compile_prompt_run by done. cbn [snd].
  destruct (bool_decide (agent ∈ participants s)); [done |].
  pose proof (new_list_other (participants s ++ [agent]) s) as Hother.
  pose proof (new_list_fresh (participants s ++ [agent]) s) as Hfresh.
  cbn in Hother, Hfresh |- *. repeat split; try done.
  - unfold participants. cbn. by rewrite Hother.
  - by apply insert_subseteq.
Qed.

(** X21.  Empty renderings leave no trace in the prompt: when the agent
    prompts and the renderings of tasks, tools and instructions are all
    empty, the prompt is the flow's prompt alone, without a blank line
    before or after it, and the empty text when that is empty too. *)
Theorem compile_prompt_drops_empty agent s :
  is_Some (lists s !! agents (self s)) →
  (∀ a, Agent_get_prompt a (self s) (participants s) = "") →
  TasksTemplate_render (tasks (self s)) (self s) (participants s) = "" →
  ToolTemplate_render (tools (self s)) (self s) (participants s) = "" →
  InstructionsTemplate_render (instructions (self s)) (self s) (participants s) = "" →
  (compile_prompt agent s).1 = Flow_get_prompt (flow (self s)) (self s) (participants s).
Proof.
  intros Hexists Hagents Htasks Htools Hinstructions.
  rewrite compile_prompt_run by done. cbn [fst].
  rewrite Htasks, Htools, Hinstructions, filter_app.
  assert (∀ l, filter (fun p => p ≠ "")
                 (map (fun a => Agent_get_prompt a (self s) (participants s)) l) = [])
    as ->.
  { induction l as [| a l IH]; [done |]. cbn [map].
    rewrite filter_cons_False by (by rewrite Hagents; intros ?). done. }
  cbn [app]. rewrite filter_cons.
  destruct (decide (Flow_get_prompt (flow (self s)) (self s) (participants s) ≠ ""))
    as [Hflow | Hflow%dec_stable]; [done | by rewrite Hflow].
Qed.

End CompileMessages.

End ContextFurther.

(** ** The ambient context: what the wrapper keeps, and the scope *)

Section WrapperFurther.

Variable R : Type.

(** The keyword arguments the wrapper calls the function with. *)
Lemma wrapper_kwargs name ctx args kwargs :
  ∃ kwargs',
    (∀ fn : Fn R, wrapper R fn name ctx args kwargs = fn args kwargs')
    ∧ (kwargs' = kwargs
       ∨ (kwargs !! name = None
          ∧ truthy (get_context ctx) = true
          ∧ kwargs' = <[name := get_context ctx]> kwargs)).
Proof.
  unfold wrapper. destruct (decide (name ∈ dom kwargs)) as [Hin | Hnotin].
  - exists kwargs. split; [| by left]. intros fn.
    rewrite bool_decide_eq_false_2; [done | by intros ?].
  - rewrite bool_decide_eq_true_2 by done.
    destruct (truthy (get_context ctx)) eqn:Htruthy.
    + eexists. split; [done |]. right. by apply not_elem_of_dom in Hnotin.
    + exists kwargs. split; [done | by left].
Qed.

(** X16.  The wrapper passes the positional arguments on as they are and
    never removes or replaces a keyword argument of the caller: the function
    is called with the caller's keyword arguments and at most one more, the
    context keyword, bound to the ambient context. *)
Theorem wrapper_keeps_arguments name ctx args kwargs :
  ∃ kwargs',
    (∀ fn : Fn R, wrapper R fn name ctx args kwargs = fn args kwargs')
    ∧ kwargs ⊆ kwargs'
    ∧ dom kwargs' ⊆ dom kwargs ∪ {[name]}
    ∧ (∀ key v, kwargs' !! key = Some v → kwargs !! key = Some v
                                          ∨ (key = name ∧ v = get_context ctx)).
Proof.
  destruct (wrapper_kwargs name ctx args kwargs)
    as (kwargs' & Hcall & [-> | (Hmissing & _ & ->)]); eexists; (split; [exact Hcall |]).
  - split; [done |]. split; [set_solver |]. intros key v Hkey. by left.
  - split; [by apply insert_subseteq |]. split; [by rewrite dom_insert_L, (comm_L (∪)) |].
    intros key v. rewrite lookup_insert. case_decide; [| by left].
    intros [= <-]. by right.
Qed.

(** X17.  Decorating a function twice with the same context keyword is the
    same as decorating it once. *)
Theorem wrapper_twice (fn : Fn R) name ctx args kwargs :
  wrapper R (wrapper R fn name ctx) name ctx args kwargs
  = wrapper R fn name ctx args kwargs.
Proof.
  destruct (wrapper_kwargs name ctx args kwargs)
    as (kwargs' & Hcall & [-> | (Hmissing & Htruthy & ->)]); rewrite !Hcall.
  - done.
  - unfold wrapper. rewrite bool_decide_eq_false_2; [done |].
    intros Hnotin. apply Hnotin, elem_of_dom. rewrite lookup_insert_eq. by eexists.
Qed.

(** Entering an object that has no open scope: the ambient values get the
    context, and the stack holds the values before. *)
Lemma enter_not_open (self : Scope.t) (ctx : gmap string Value) :
  Scope.not_open self →
  Scope.__enter__ self ctx
  = (Scope.mk (Scope.context self) (Some [ctx]),
     <["agent_context" := VContext (Scope.context self)]> ctx).
Proof. by intros [Hnone | Hclosed]; unfold Scope.__enter__; rewrite ?Hnone, ?Hclosed. Qed.

(** X18.  On a context that has no open scope: entering the scope makes it
    the ambient context and leaves the other ambient values alone; leaving
    the scope returns [False], so an exception of the body is not
    suppressed, and puts the ambient values back as they were at the entry;
    leaving it a second time changes nothing; leaving a scope never entered
    raises [AttributeError]. *)
Theorem scope_enter_exit (self : Scope.t) (ctx : gmap string Value) :
  Scope.not_open self →
  get_context (Scope.__enter__ self ctx).2 = VContext (Scope.context self)
  ∧ (∀ name, name ≠ "agent_context" → (Scope.__enter__ self ctx).2 !! name = ctx !! name)
  ∧ Scope.__exit__ (Scope.__enter__ self ctx).1 (Scope.__enter__ self ctx).2
    = Ok (false, Scope.mk (Scope.context self) (Some []), ctx)
  ∧ (∀ ctx', Scope.__exit__ (Scope.mk (Scope.context self) (Some [])) ctx'
             = Ok (false, Scope.mk (Scope.context self) (Some []), ctx'))
  ∧ (Scope._context self = None →
     Scope.__exit__ self ctx = Err (AttributeError "close")).
Proof.
  intros Hclosed. rewrite (enter_not_open _ _ Hclosed). cbn [fst snd].
  unfold Scope.__exit__, get_context. cbn.
  rewrite lookup_insert_eq. split; [done |]. split.
  - intros name Hname. by rewrite lookup_insert_ne.
  - split; [done |]. split; [done |]. by intros ->.
Qed.

(** X19.  Scopes nest.  For two contexts without open scope: inside the
    scope of [inner], entered inside the scope of [outer], the ambient
    context is [inner]; once it is left, the ambient context is [outer]
    again; once that is left too, the ambient values are those from
    before. *)
Theorem scope_nesting (outer inner : Scope.t) (ctx : gmap string Value) :
  Scope.not_open outer →
  Scope.not_open inner →
  let in_outer := Scope.__enter__ outer ctx in
  let in_inner := Scope.__enter__ inner in_outer.2 in
  get_context in_inner.2 = VContext (Scope.context inner)
  ∧ ∃ inner' outer',
      Scope.__exit__ in_inner.1 in_inner.2 = Ok (false, inner', in_outer.2)
      ∧ get_context in_outer.2 = VContext (Scope.context outer)
      ∧ Scope.__exit__ in_outer.1 in_outer.2 = Ok (false, outer', ctx).
Proof.
  intros Houter Hinner. cbn zeta.
  rewrite (enter_not_open outer _ Houter). cbn [fst snd].
  rewrite (enter_not_open inner _ Hinner). cbn [fst snd].
  unfold Scope.__exit__, get_context. cbn.
  rewrite !lookup_insert_eq. split; [done |]. by do 2 eexists.
Qed.

(** X20.  Inside the scope of a context, a wrapped function called without
    the context keyword is given that context, and one called with it keeps
    the caller's. *)
Theorem wrapper_inside_scope (fn : Fn R) (self : Scope.t) ctx args kwargs :
  (kwargs !! "context" = None →
   wrapper R fn "context" (Scope.__enter__ self ctx).2 args kwargs
   = fn args (<["context" := VContext (Scope.context self)]> kwargs))
  ∧ (is_Some (kwargs !! "context") →
     wrapper R fn "context" (Scope.__enter__ self ctx).2 args kwargs = fn args kwargs).
Proof.
  assert (get_context (Scope.__enter__ self ctx).2 = VContext (Scope.context self))
    as Hambient.
  { unfold Scope.__enter__, Scope.ctx_enter, get_context. cbn.
    by rewrite lookup_insert_eq. }
  unfold wrapper. rewrite Hambient. cbn. split.
  - intros Hmissing. apply not_elem_of_dom in Hmissing.
    by rewrite bool_decide_eq_true_2.
  - intros Hgiven. apply elem_of_dom in Hgiven.
    rewrite bool_decide_eq_false_2; [done | by intros ?].
Qed.

End WrapperFurther.

(** ** Witnesses of the further properties *)

(** X1 on the first call of the run of [Scenario]. *)
Lemma get_agent_moves_counter_only_witness :
  Team.set_iterations Scenario.team 1 = Team.set_iterations Scenario.team (0 + 1)
  ∧ Team.agents (Team.set_iterations Scenario.team 1) = [Scenario.alice; Scenario.bob]
  ∧ 0 ≤ 1 ≤ 0 + 1.
Proof.
  exact (get_agent_moves_counter_only Flow.get_events Scenario.team (Scenario.context [])
           Scenario.alice (Team.set_iterations Scenario.team 1) eq_refl).
Defined.

(** X2 on the three calls of that run: the second finds the turn held. *)
Lemma get_agent_each_skips_held_witness :
  Team.get_agent_each Flow.get_events Scenario.team
    [ Scenario.context [];
      Scenario.context [Scenario.tool_result_event Scenario.alice false];
      Scenario.context [Scenario.tool_result_event Scenario.alice false;
                        Scenario.tool_result_event Scenario.alice true] ]
  = Ok ([Scenario.alice; Scenario.alice; Scenario.bob], Team.set_iterations Scenario.team 2)
  ∧ Team._iterations (Team.set_iterations Scenario.team 2) = 0 + Z.of_nat 2.
Proof.
  split; [reflexivity |].
  destruct (get_agent_each_skips_held Flow.get_events Scenario.team
              [ Scenario.context [];
                Scenario.context [Scenario.tool_result_event Scenario.alice false];
                Scenario.context [Scenario.tool_result_event Scenario.alice false;
                                  Scenario.tool_result_event Scenario.alice true] ]
              [Scenario.alice; Scenario.alice; Scenario.bob]
              (Team.set_iterations Scenario.team 2) eq_refl)
    as (_ & Hcounter & _).
  exact Hcounter.
Defined.

(** X3 at the counters -1 and 9 of a team of two: the second member. *)
Lemma rotation_periodic_witness :
  ∃ agent,
    agent ∈ [Scenario.alice; Scenario.bob]
    ∧ Team.rotation (Team.set_iterations Scenario.team (-1))
      = Ok (agent, Team.set_iterations Scenario.team (-1 + 1))
    ∧ Team.rotation (Team.set_iterations Scenario.team (-1 + 5 * 2))
      = Ok (agent, Team.set_iterations Scenario.team (-1 + 5 * 2 + 1)).
Proof.
  apply (rotation_periodic (Team.set_iterations Scenario.team (-1)) 5). discriminate.
Defined.

(** X4 on the team without members. *)
Lemma get_agent_without_members_witness :
  Team.get_agent Flow.get_events Scenario.nobody (Scenario.context [])
  = Err ZeroDivisionError
  ∧ ∃ e rest,
      Scenario.always [Scenario.tool_result_event Scenario.alice false]
        (Flow.mk "thread-1" []) [] [Scenario.task] ["tool-result"; "agent-message"] (Some 1)
      = e :: rest
      ∧ Team.get_agent
          (Scenario.always [Scenario.tool_result_event Scenario.alice false])
          Scenario.nobody (Scenario.context [])
        = Ok (Event.agent e, Scenario.nobody).
Proof.
  split.
  - apply (get_agent_without_members Flow.get_events Scenario.nobody (Scenario.context []));
      [reflexivity | exact I].
  - apply (get_agent_without_members
             (Scenario.always [Scenario.tool_result_event Scenario.alice false])
             Scenario.nobody (Scenario.context [])); [reflexivity |].
    split; [reflexivity |]. by exists (ToolResult.mk false).
Defined.

(** X6 on the first call of the run. *)
Lemma get_agent_keeps_id_witness :
  Team.id_tuple (Team.set_iterations Scenario.team 1) = Team.id_tuple Scenario.team
  ∧ Team._generate_id (Team.set_iterations Scenario.team 1)
    = Team._generate_id Scenario.team.
Proof.
  exact (get_agent_keeps_id Flow.get_events Scenario.team (Scenario.context [])
           Scenario.alice (Team.set_iterations Scenario.team 1) eq_refl).
Defined.

(** X8 on [carol], who is not registered in the state of [Scenario]. *)
Lemma add_agent_makes_new_list_witness :
  AgentContext.participants
    (AgentContext.after (AgentContext.add_agent Scenario.carol) Scenario.state)
  = [Scenario.alice; Scenario.bob] ++ [Scenario.carol]
  ∧ AgentContext.lists
      (AgentContext.after (AgentContext.add_agent Scenario.carol) Scenario.state)
    !! 1%positive
    = Some [Scenario.alice; Scenario.bob].
Proof.
  destruct (add_agent_makes_new_list Scenario.carol Scenario.state)
    as (Hlast & _ & Hold & _).
  - vm_compute. intros Hin. repeat (apply elem_of_cons in Hin as [Heq | Hin]; [done |]).
    by apply elem_of_nil in Hin.
  - by eexists.
  - split; [exact Hlast | exact Hold].
Defined.

(** X15 with a log read newest first and the renderings of [Scenario]. *)
Lemma compile_messages_uses_compile_prompt_witness :
  (AgentContext.compile_messages Scenario.newest unit string (fun _ => tt)
     Scenario.to_messages Scenario.agent_prompt Scenario.flow_prompt Scenario.no_prompt
     Scenario.no_prompt Scenario.instructions_prompt Scenario.carol Scenario.state).1
  = [String.concat AgentContext.blank_line ["Carol"; "Bob"; "Alice"; "# Flow"; "Be brief."]]
  ∧ AgentContext.participants
      (AgentContext.after
         (AgentContext.compile_messages Scenario.newest unit string (fun _ => tt)
            Scenario.to_messages Scenario.agent_prompt Scenario.flow_prompt
            Scenario.no_prompt Scenario.no_prompt Scenario.instructions_prompt
            Scenario.carol)
         Scenario.state)
    = [Scenario.alice; Scenario.bob].
Proof.
  destruct (compile_messages_uses_compile_prompt Scenario.newest unit string (fun _ => tt)
              Scenario.to_messages Scenario.agent_prompt Scenario.flow_prompt
              Scenario.no_prompt Scenario.no_prompt Scenario.instructions_prompt
              Scenario.carol Scenario.state)
    as (Hmessages & _ & Hparticipants & _); [by eexists |].
  split; [exact Hmessages | exact Hparticipants].
Defined.

(** X21 in the state of [Scenario], with only the flow's prompt not empty. *)
Lemma compile_prompt_drops_empty_witness :
  (AgentContext.compile_prompt Scenario.no_prompt Scenario.flow_prompt Scenario.no_prompt
     Scenario.no_prompt Scenario.no_prompt Scenario.carol Scenario.state).1
  = "# Flow".
Proof.
  apply (compile_prompt_drops_empty Scenario.no_prompt Scenario.flow_prompt
           Scenario.no_prompt Scenario.no_prompt Scenario.no_prompt Scenario.carol
           Scenario.state); [by eexists | reflexivity..].
Defined.

(** C9 as stated fails: a caller that supplies the context by position, with
    another context ambient, does not have its call passed on as given; the
    ambient context is added under the keyword. *)
Lemma provide_agent_context_positional :
  ∃ w,
    provide_agent_context _ (Some Scenario.echo) None = inr w
    ∧ w Scenario.ambient [VContext (Scenario.context [Scenario.agent_message_event Scenario.bob])] ∅
      = ([VContext (Scenario.context [Scenario.agent_message_event Scenario.bob])],
         {[ "context" := VContext (Scenario.context []) ]})
    ∧ w Scenario.ambient [VContext (Scenario.context [Scenario.agent_message_event Scenario.bob])] ∅
      ≠ Scenario.echo
          [VContext (Scenario.context [Scenario.agent_message_event Scenario.bob])] ∅.
Proof.
  exists (wrapper _ Scenario.echo "context"). split; [reflexivity |].
  assert (wrapper _ Scenario.echo "context" Scenario.ambient
            [VContext (Scenario.context [Scenario.agent_message_event Scenario.bob])] ∅
          = ([VContext (Scenario.context [Scenario.agent_message_event Scenario.bob])],
             {[ "context" := VContext (Scenario.context []) ]})) as Hcall.
  { by apply wrapper_positional_context. }
  split; [exact Hcall |]. rewrite Hcall. unfold Scenario.echo.
  intros Hsame. apply (f_equal snd) in Hsame. cbn [snd] in Hsame.
  apply (f_equal (fun m : gmap string Value => m !! "context")) in Hsame.
  by rewrite lookup_singleton_eq, lookup_empty in Hsame.
Qed.

(** The scope of one object entered twice, then left: the ambient values
    are those from before the first entry. *)
Example scope_entered_twice :
  let once := Scope.__enter__ Scenario.outer_scope ∅ in
  let twice := Scope.__enter__ once.1 once.2 in
  get_context twice.2 = VContext (Scenario.context [])
  ∧ Scope.__exit__ twice.1 twice.2
    = Ok (false, Scope.mk (Scenario.context []) (Some []), ∅).
Proof. split; reflexivity. Qed.

(** X18 on a context never entered, with no ambient values. *)
Lemma scope_enter_exit_witness :
  get_context (Scope.__enter__ Scenario.outer_scope ∅).2 = VContext (Scenario.context [])
  ∧ Scope.__exit__ (Scope.__enter__ Scenario.outer_scope ∅).1
      (Scope.__enter__ Scenario.outer_scope ∅).2
    = Ok (false, Scope.mk (Scenario.context []) (Some []), ∅)
  ∧ Scope.__exit__ Scenario.outer_scope ∅ = Err (AttributeError "close").
Proof.
  destruct (scope_enter_exit Scenario.outer_scope ∅ (or_introl eq_refl))
    as (Hinside & _ & Hleft & _ & Hnever).
  split; [exact Hinside |]. split; [exact Hleft | exact (Hnever eq_refl)].
Defined.

(** X19 on two contexts never entered. *)
Lemma scope_nesting_witness :
  get_context
    (Scope.__enter__ Scenario.inner_scope (Scope.__enter__ Scenario.outer_scope ∅).2).2
  = VContext (Scenario.context [Scenario.agent_message_event Scenario.bob])
  ∧ ∃ inner' outer',
      Scope.__exit__
        (Scope.__enter__ Scenario.inner_scope (Scope.__enter__ Scenario.outer_scope ∅).2).1
        (Scope.__enter__ Scenario.inner_scope (Scope.__enter__ Scenario.outer_scope ∅).2).2
      = Ok (false, inner', (Scope.__enter__ Scenario.outer_scope ∅).2)
      ∧ get_context (Scope.__enter__ Scenario.outer_scope ∅).2
        = VContext (Scenario.context [])
      ∧ Scope.__exit__ (Scope.__enter__ Scenario.outer_scope ∅).1
          (Scope.__enter__ Scenario.outer_scope ∅).2
        = Ok (false, outer', ∅).
Proof.
  exact (scope_nesting Scenario.outer_scope Scenario.inner_scope ∅
           (or_introl eq_refl) (or_introl eq_refl)).
Defined.
